(** * SimplePoolWithLP and PoolFactory: a shallow embedding

    The two Solidity contracts of the repository,
    [contracts/contracts/SimplePoolWithLP.sol] (the pool engine) and
    [PoolFactory.sol] (the registry), are embedded as executable Rocq
    functions.

    - [uint256] values and addresses are binary naturals ([N]); Solidity 0.8
      arithmetic is checked, so every [+], [-], [*] and [/] of the source is
      a [checked_*] operation that fails with [Panic 0x11] (overflow or
      underflow) or [Panic 0x12] (division by zero).
    - A call either returns or reverts: fallible code lives in the [Result]
      monad, and a revert discards every tentative state change.
    - Storage is a record; mappings are [gmap]s read with default [0].
    - The two ERC-20 ledgers the pool talks to, the ERC-20 base contract that
      keeps the LP shares and the reentrancy guard are imported by the
      source from OpenZeppelin; they are modelled from the specification.
    - A token may call back into the pool from inside its transfer logic:
      into an entry point the pool declares, or into a function of the LP
      shares it inherits ([transfer], [transferFrom], [approve]). The
      pool's entry points are therefore defined over a [reenter] callback,
      and the knot is tied by recursion on the remaining call depth of the
      virtual machine. *)

From Stdlib Require Import NArith Lia String List.
From stdpp Require Import base option gmap.
From Equations Require Import Equations.
Import ListNotations.

Open Scope string_scope.
Open Scope N_scope.

(** ** Failures and the result monad *)

Inductive Failure : Type :=
| Revert (reason : string)            (* require(cond, "reason") *)
| Panic (code : N)                    (* compiler-inserted checks *)
| ReentrancyGuardReentrantCall
| ERC20InsufficientBalance
| ERC20InsufficientAllowance
| ERC20InvalidReceiver
| ERC20InvalidSender
| ERC20InvalidApprover
| ERC20InvalidSpender
| RevertNoData                        (* revert with empty return data *)
| CallDepthExceeded.

Inductive Result (A : Type) : Type :=
| Ok (a : A)
| Err (e : Failure).
Arguments Ok {A} a.
Arguments Err {A} e.

#[export] Instance Result_ret : MRet Result := fun A a => Ok a.
#[export] Instance Result_bind : MBind Result := fun A B f m =>
  match m with
  | Ok a => f a
  | Err e => Err e
  end.

Definition PANIC_OVERFLOW : N := 17.        (* 0x11 *)
Definition PANIC_DIV_BY_ZERO : N := 18.     (* 0x12 *)

Definition MAX_UINT256 : N := 2 ^ 256 - 1.

Definition checked_add (a b : N) : Result N :=
  if a + b <=? MAX_UINT256 then Ok (a + b) else Err (Panic PANIC_OVERFLOW).

Definition checked_sub (a b : N) : Result N :=
  if b <=? a then Ok (a - b) else Err (Panic PANIC_OVERFLOW).

Definition checked_mul (a b : N) : Result N :=
  if a * b <=? MAX_UINT256 then Ok (a * b) else Err (Panic PANIC_OVERFLOW).

Definition checked_div (a b : N) : Result N :=
  if b =? 0 then Err (Panic PANIC_DIV_BY_ZERO) else Ok (a / b).

Definition require (cond : bool) (reason : string) : Result unit :=
  if cond then Ok tt else Err (Revert reason).

(** The named failures of the specification and the revert reasons the
    source uses for them. *)
Definition InsufficientInitialLiquidity : Failure := Revert "Insufficient liquidity".
Definition NoLiquidityMinted : Failure := Revert "Insufficient liquidity minted".
Definition InsufficientBurnAmount : Failure := Revert "Insufficient liquidity burned".
Definition SlippageExceeded : Failure := Revert "Slippage too high".
Definition InsufficientInputAmount : Failure := Revert "Insufficient input amount".
Definition InsufficientLiquidity : Failure := Revert "Insufficient liquidity".
Definition PoolAlreadyExists : Failure := Revert "Pool exists".

(** ** SimplePoolWithLP: constants and pure helpers *)

Definition FEE_BPS : N := 30.
Definition MINIMUM_LIQUIDITY : N := 10 ^ 3.

(** [_getAmountOut], lines 232-244. *)
Definition _getAmountOut (amountIn reserveIn reserveOut : N) : Result N :=
  _ ← require (0 <? amountIn) "Insufficient input amount";
  _ ← require ((0 <? reserveIn) && (0 <? reserveOut)) "Insufficient liquidity";
  keep ← checked_sub 10000 FEE_BPS;
  amountInWithFee ← checked_mul amountIn keep;
  numerator ← checked_mul amountInWithFee reserveOut;
  scaled ← checked_mul reserveIn 10000;
  denominator ← checked_add scaled amountInWithFee;
  checked_div numerator denominator.

(** [_quote], lines 246-254. *)
Definition _quote (amountA _reserveA _reserveB : N) : Result N :=
  _ ← require (0 <? amountA) "Insufficient amount";
  _ ← require ((0 <? _reserveA) && (0 <? _reserveB)) "Insufficient liquidity";
  product ← checked_mul amountA _reserveB;
  checked_div product _reserveA.

(** One evaluation of [(y / x + x) / 2], the body of the loop of [_sqrt]. *)
Definition sqrt_step (y x : N) : Result N :=
  q ← checked_div y x;
  s ← checked_add q x;
  checked_div s 2.

(** The recursion of [sqrt_loop] is on [z] along [<]; the layers of
    [Acc_intro] in front of the library proof let closed terms evaluate. *)
#[local] Instance N_lt_wf : WellFounded N.lt := Acc_intro_generator 10 N.lt_wf_0.

(** [while (x < z) { z = x; x = (y / x + x) / 2; }], lines 260-263. *)
Equations sqrt_loop (y x z : N) : Result N by wf z N.lt :=
  sqrt_loop y x z with decide (x < z) := {
    | left Hlt with sqrt_step y x := {
        | Ok x' => sqrt_loop y x' x
        | Err e => Err e };
    | right _ => Ok z }.

(** [_sqrt], lines 256-267. *)
Definition _sqrt (y : N) : Result N :=
  if 3 <? y then
    half ← checked_div y 2;
    x ← checked_add half 1;
    sqrt_loop y x y
  else if negb (y =? 0) then Ok 1
  else Ok 0.

(** [_min], lines 269-271. *)
Definition _min (a b : N) : N := if a <? b then a else b.

(** ** The external token ledgers *)

(** The state-changing entry points [SimplePoolWithLP] declares itself. *)
Inductive Call : Type :=
| CallAddLiquidity (amountADesired amountBDesired amountAMin amountBMin : N)
| CallRemoveLiquidity (liquidity amountAMin amountBMin : N) (to : N)
| CallSwapAToB (amountAIn amountBOutMin : N) (to : N)
| CallSwapBToA (amountBIn amountAOutMin : N) (to : N)
| CallSync.

(** What a token may call on the pool from inside its transfer logic: an
    entry point the pool declares, or one of the state-changing functions of
    the LP shares it inherits ([contract SimplePoolWithLP is ERC20],
    line 15). The functions inherited from [Ownable] change only the owner,
    which no function of the pool reads; they are left out. *)
Inductive Callback : Type :=
| PoolCall (c : Call)
| ShareTransfer (to value : N)
| ShareTransferFrom (from to value : N)
| ShareApprove (spender value : N).

(** One callback of a token into the pool; a token that wraps the call in
    [try/catch] survives its failure, any other token fails with it. *)
Record Hook : Type := mkHook {
  hook_call : Callback;
  hook_catches : bool }.

(** Modelled from the spec: the external token ledger of section 6, which
    the source reaches through the imported [IERC20] and [SafeERC20]. It can
    (a) report a holder's balance, (b) pull an amount from a caller into the
    pool, failing if the caller lacks balance or authorization, and (c) push
    an amount from the pool to a recipient. Its transfer logic is not
    controlled by the pool and may call back into it (section 5): [hooks]
    lists the calls it makes after moving the funds. *)
Record Token : Type := mkToken {
  token_address : N;
  balances : gmap N N;
  allowances : gmap (N * N) N;
  hooks : list Hook }.

Definition balanceOf (t : Token) (account : N) : N :=
  default 0 (balances t !! account).

Definition allowance (t : Token) (owner spender : N) : N :=
  default 0 (allowances t !! (owner, spender)).

Definition set_balances (b : gmap N N) (t : Token) : Token :=
  {| token_address := token_address t; balances := b;
     allowances := allowances t; hooks := hooks t |}.

Definition set_allowances (a : gmap (N * N) N) (t : Token) : Token :=
  {| token_address := token_address t; balances := balances t;
     allowances := a; hooks := hooks t |}.

(** Modelled from the spec: moving [value] from [from] to [to] on the ledger;
    all or nothing. *)
Definition ledger_move (from to value : N) (t : Token) : Result Token :=
  if from =? 0 then Err ERC20InvalidSender
  else if to =? 0 then Err ERC20InvalidReceiver
  else if balanceOf t from <? value then Err ERC20InsufficientBalance
  else
    let debited := <[from := balanceOf t from - value]> (balances t) in
    let credited := <[to := default 0 (debited !! to) + value]> debited in
    Ok (set_balances credited t).

(** Modelled from the spec: consuming the authorization [owner] gave to
    [spender]; an authorization of [MAX_UINT256] is unlimited. *)
Definition ledger_spend (owner spender value : N) (t : Token) : Result Token :=
  let current := allowance t owner spender in
  if current =? MAX_UINT256 then Ok t
  else if current <? value then Err ERC20InsufficientAllowance
  else Ok (set_allowances (<[(owner, spender) := current - value]> (allowances t)) t).

(** ** The pool and its environment *)

Inductive Event : Type :=
| Mint (sender amountA amountB : N)
| Burn (sender amountA amountB to : N)
| Swap (sender amountAIn amountBIn amountAOut amountBOut to : N)
| Sync (reserveA reserveB : N).

(** The storage of one [SimplePoolWithLP] instance together with the two
    ledgers it governs. [totalSupply], [lpBalances] and [lpAllowances] are
    the state of the inherited ERC-20 (the LP shares), [entered] the status
    of the inherited reentrancy guard, [events] the log. *)
Record World : Type := mkWorld {
  this : N;
  tokenA : Token;
  tokenB : Token;
  reserveA : N;
  reserveB : N;
  totalSupply : N;
  lpBalances : gmap N N;
  lpAllowances : gmap (N * N) N;
  entered : bool;
  events : list Event }.

Inductive Side : Type := SideA | SideB.

Definition token_of (s : Side) (w : World) : Token :=
  match s with SideA => tokenA w | SideB => tokenB w end.

Definition set_token (s : Side) (t : Token) (w : World) : World :=
  match s with
  | SideA => mkWorld (this w) t (tokenB w) (reserveA w) (reserveB w)
               (totalSupply w) (lpBalances w) (lpAllowances w) (entered w) (events w)
  | SideB => mkWorld (this w) (tokenA w) t (reserveA w) (reserveB w)
               (totalSupply w) (lpBalances w) (lpAllowances w) (entered w) (events w)
  end.

Definition set_reserves (rA rB : N) (w : World) : World :=
  mkWorld (this w) (tokenA w) (tokenB w) rA rB
    (totalSupply w) (lpBalances w) (lpAllowances w) (entered w) (events w).

Definition set_shares (supply : N) (b : gmap N N) (w : World) : World :=
  mkWorld (this w) (tokenA w) (tokenB w) (reserveA w) (reserveB w)
    supply b (lpAllowances w) (entered w) (events w).

Definition set_lpAllowances (a : gmap (N * N) N) (w : World) : World :=
  mkWorld (this w) (tokenA w) (tokenB w) (reserveA w) (reserveB w)
    (totalSupply w) (lpBalances w) a (entered w) (events w).

Definition set_entered (e : bool) (w : World) : World :=
  mkWorld (this w) (tokenA w) (tokenB w) (reserveA w) (reserveB w)
    (totalSupply w) (lpBalances w) (lpAllowances w) e (events w).

Definition emit (ev : Event) (w : World) : World :=
  mkWorld (this w) (tokenA w) (tokenB w) (reserveA w) (reserveB w)
    (totalSupply w) (lpBalances w) (lpAllowances w) (entered w)
    (events w ++ [ev]).

Definition lpBalanceOf (w : World) (account : N) : N :=
  default 0 (lpBalances w !! account).

(** Modelled from the spec: crediting [value] LP shares to [account] and
    increasing [totalShares] (the inherited [_mint]; section 4.2). *)
Definition _mint (account value : N) (w : World) : Result World :=
  if account =? 0 then Err ERC20InvalidReceiver
  else
    supply ← checked_add (totalSupply w) value;
    Ok (set_shares supply
          (<[account := lpBalanceOf w account + value]> (lpBalances w)) w).

(** Modelled from the spec: burning [value] LP shares of [account] (the
    inherited [_burn]); the sum of the balances stays [totalShares]. *)
Definition _burn (account value : N) (w : World) : Result World :=
  if account =? 0 then Err ERC20InvalidSender
  else if lpBalanceOf w account <? value then Err ERC20InsufficientBalance
  else
    Ok (set_shares (totalSupply w - value)
          (<[account := lpBalanceOf w account - value]> (lpBalances w)) w).

Definition lpAllowance (w : World) (owner spender : N) : N :=
  default 0 (lpAllowances w !! (owner, spender)).

(** Modelled from the spec: the LP shares are a fungible ledger (sections
    1 and 3) whose units change hands by share transfer (section 8); the
    source inherits it from the imported ERC-20 base contract. Moving
    [value] shares from [from] to [to] leaves the supply alone: the sum of
    the balances stays [totalShares]. *)
Definition share_move (from to value : N) (w : World) : Result World :=
  if from =? 0 then Err ERC20InvalidSender
  else if to =? 0 then Err ERC20InvalidReceiver
  else if lpBalanceOf w from <? value then Err ERC20InsufficientBalance
  else
    let debited := <[from := lpBalanceOf w from - value]> (lpBalances w) in
    let credited := <[to := default 0 (debited !! to) + value]> debited in
    Ok (set_shares (totalSupply w) credited w).

(** Modelled from the spec: the inherited [transfer(to, value)] of the LP
    shares, called by [sender]; it carries no reentrancy guard. *)
Definition transfer (sender to value : N) (w : World) : Result World :=
  share_move sender to value w.

(** Modelled from the spec: the inherited [approve(spender, value)] of the
    LP shares, called by [sender]; it carries no reentrancy guard. *)
Definition approve (sender spender value : N) (w : World) : Result World :=
  if sender =? 0 then Err ERC20InvalidApprover
  else if spender =? 0 then Err ERC20InvalidSpender
  else Ok (set_lpAllowances (<[(sender, spender) := value]> (lpAllowances w)) w).

(** Modelled from the spec: the inherited [transferFrom(from, to, value)] of
    the LP shares, called by [sender], who spends the authorization [from]
    gave; an authorization of [MAX_UINT256] is unlimited. It carries no
    reentrancy guard. *)
Definition transferFrom (sender from to value : N) (w : World) : Result World :=
  let current := lpAllowance w from sender in
  w ← (if current =? MAX_UINT256 then Ok w
       else if current <? value then Err ERC20InsufficientAllowance
       else Ok (set_lpAllowances
                  (<[(from, sender) := current - value]> (lpAllowances w)) w));
  share_move from to value w.

(** Modelled from the spec: the in-progress flag of section 9, checked at
    entry and cleared at exit (the inherited [nonReentrant] modifier). *)
Definition nonReentrant {A : Type} (body : World → Result (A * World))
    (w : World) : Result (A * World) :=
  if entered w then Err ReentrancyGuardReentrantCall
  else
    '(r, w') ← body (set_entered true w);
    Ok (r, set_entered false w').

(** [_update], lines 226-230. *)
Definition _update (w : World) : World :=
  let rA := balanceOf (tokenA w) (this w) in
  let rB := balanceOf (tokenB w) (this w) in
  emit (Sync rA rB) (set_reserves rA rB w).

(** [sync], lines 216-218: external and not guarded. *)
Definition sync (w : World) : World := _update w.

(** [getReserves], lines 207-209. *)
Definition getReserves (w : World) : N * N := (reserveA w, reserveB w).

(** [getAmountOut], lines 192-202: a view over the cached reserves. *)
Definition getAmountOut (amountIn : N) (isTokenA : bool) (w : World) : Result N :=
  if isTokenA then _getAmountOut amountIn (reserveA w) (reserveB w)
  else _getAmountOut amountIn (reserveB w) (reserveA w).

(** The computation of [addLiquidity] between its first resynchronization
    and its transfers, lines 62-94: the shares to mint and the two amounts
    to pull, from the cached reserves and the share supply. *)
Definition addLiquidity_amounts (_reserveA _reserveB supply : N)
    (amountADesired amountBDesired amountAMin amountBMin : N) : Result (N * N * N) :=
  '(liquidity, amountADesired, amountBDesired) ←
    (if (_reserveA =? 0) && (_reserveB =? 0) then
       product ← checked_mul amountADesired amountBDesired;
       totalLiquidity ← _sqrt product;
       _ ← require (MINIMUM_LIQUIDITY <? totalLiquidity) "Insufficient liquidity";
       liquidity ← checked_sub totalLiquidity MINIMUM_LIQUIDITY;
       Ok (liquidity, amountADesired, amountBDesired)
     else
       amountBOptimal ← _quote amountADesired _reserveA _reserveB;
       '(amountAOptimal, amountBOptimal) ←
         (if amountBOptimal <=? amountBDesired then
            _ ← require (amountBMin <=? amountBOptimal) "Insufficient B amount";
            Ok (amountADesired, amountBOptimal)
          else
            amountAOptimal ← _quote amountBDesired _reserveB _reserveA;
            _ ← require ((amountAOptimal <=? amountADesired)
                          && (amountAMin <=? amountAOptimal)) "Insufficient A amount";
            Ok (amountAOptimal, amountBDesired));
       shareA ← (p ← checked_mul amountAOptimal supply; checked_div p _reserveA);
       shareB ← (p ← checked_mul amountBOptimal supply; checked_div p _reserveB);
       Ok (_min shareA shareB, amountAOptimal, amountBOptimal));
  _ ← require (0 <? liquidity) "Insufficient liquidity minted";
  Ok (liquidity, amountADesired, amountBDesired).

(** The computation of [removeLiquidity] before it burns, lines 123-128. *)
Definition removeLiquidity_amounts (_reserveA _reserveB _totalSupply : N)
    (liquidity amountAMin amountBMin : N) : Result (N * N) :=
  amountA ← (p ← checked_mul liquidity _reserveA; checked_div p _totalSupply);
  amountB ← (p ← checked_mul liquidity _reserveB; checked_div p _totalSupply);
  _ ← require ((0 <? amountA) && (0 <? amountB)) "Insufficient liquidity burned";
  _ ← require ((amountAMin <=? amountA) && (amountBMin <=? amountB)) "Slippage too high";
  Ok (amountA, amountB).

Section PoolEngine.

(** What a call of [sender] into the pool does when it is made from
    inside a token's transfer logic. *)
Variable reenter : N → Callback → World → Result World.

Fixpoint run_hooks (caller : N) (hs : list Hook) (w : World) : Result World :=
  match hs with
  | [] => Ok w
  | h :: rest =>
      match reenter caller (hook_call h) w with
      | Ok w' => run_hooks caller rest w'
      | Err e => if hook_catches h then run_hooks caller rest w else Err e
      end
  end.

(** [token.safeTransfer(to, value)] called by the pool. *)
Definition safeTransfer (s : Side) (to value : N) (w : World) : Result World :=
  t ← ledger_move (this w) to value (token_of s w);
  run_hooks (token_address t) (hooks t) (set_token s t w).

(** [token.safeTransferFrom(from, address(this), value)] called by the
    pool, which is the spender. *)
Definition safeTransferFrom (s : Side) (from value : N) (w : World) : Result World :=
  t ← ledger_spend from (this w) value (token_of s w);
  t ← ledger_move from (this w) value t;
  run_hooks (token_address t) (hooks t) (set_token s t w).

(** [addLiquidity], lines 52-104. *)
Definition addLiquidity (sender : N)
    (amountADesired amountBDesired amountAMin amountBMin : N)
    : World → Result (N * World) :=
  nonReentrant (fun w =>
    let w := _update w in
    let '(_reserveA, _reserveB) := (reserveA w, reserveB w) in
    '(liquidity, amountADesired, amountBDesired) ←
      addLiquidity_amounts _reserveA _reserveB (totalSupply w)
        amountADesired amountBDesired amountAMin amountBMin;
    w ← safeTransferFrom SideA sender amountADesired w;
    w ← safeTransferFrom SideB sender amountBDesired w;
    let w := _update w in
    w ← _mint sender liquidity w;
    Ok (liquidity, emit (Mint sender amountADesired amountBDesired) w)).

(** [removeLiquidity], lines 113-139. *)
Definition removeLiquidity (sender : N)
    (liquidity amountAMin amountBMin to : N)
    : World → Result (N * N * World) :=
  nonReentrant (fun w =>
    let w := _update w in
    let '(_reserveA, _reserveB) := (reserveA w, reserveB w) in
    let _totalSupply := totalSupply w in
    '(amountA, amountB) ←
      removeLiquidity_amounts _reserveA _reserveB _totalSupply
        liquidity amountAMin amountBMin;
    w ← _burn sender liquidity w;
    w ← safeTransfer SideA to amountA w;
    w ← safeTransfer SideB to amountB w;
    let w := _update w in
    Ok (amountA, amountB, emit (Burn sender amountA amountB to) w)).

(** [swapAToB], lines 144-163. *)
Definition swapAToB (sender : N) (amountAIn amountBOutMin to : N)
    : World → Result (N * World) :=
  nonReentrant (fun w =>
    let w := _update w in
    let '(_reserveA, _reserveB) := (reserveA w, reserveB w) in
    amountBOut ← _getAmountOut amountAIn _reserveA _reserveB;
    _ ← require (amountBOutMin <=? amountBOut) "Insufficient output amount";
    w ← safeTransferFrom SideA sender amountAIn w;
    w ← safeTransfer SideB to amountBOut w;
    let w := _update w in
    Ok (amountBOut, emit (Swap sender amountAIn 0 0 amountBOut to) w)).

(** [swapBToA], lines 168-187. *)
Definition swapBToA (sender : N) (amountBIn amountAOutMin to : N)
    : World → Result (N * World) :=
  nonReentrant (fun w =>
    let w := _update w in
    let '(_reserveA, _reserveB) := (reserveA w, reserveB w) in
    amountAOut ← _getAmountOut amountBIn _reserveB _reserveA;
    _ ← require (amountAOutMin <=? amountAOut) "Insufficient output amount";
    w ← safeTransferFrom SideB sender amountBIn w;
    w ← safeTransfer SideA to amountAOut w;
    let w := _update w in
    Ok (amountAOut, emit (Swap sender 0 amountBIn amountAOut 0 to) w)).

(** An external call into the pool: its effect on the state. *)
Definition entry (sender : N) (c : Call) (w : World) : Result World :=
  match c with
  | CallAddLiquidity aD bD aMin bMin =>
      '(_, w') ← addLiquidity sender aD bD aMin bMin w; Ok w'
  | CallRemoveLiquidity liquidity aMin bMin to =>
      '(_, w') ← removeLiquidity sender liquidity aMin bMin to w; Ok w'
  | CallSwapAToB aIn outMin to =>
      '(_, w') ← swapAToB sender aIn outMin to w; Ok w'
  | CallSwapBToA bIn outMin to =>
      '(_, w') ← swapBToA sender bIn outMin to w; Ok w'
  | CallSync => Ok (sync w)
  end.

(** A call a token makes on the pool: an entry point of the pool, or a
    function of the share ledger, which runs whether or not an operation
    is in progress. *)
Definition callback (sender : N) (cb : Callback) (w : World) : Result World :=
  match cb with
  | PoolCall c => entry sender c w
  | ShareTransfer to value => transfer sender to value w
  | ShareTransferFrom from to value => transferFrom sender from to value w
  | ShareApprove spender value => approve sender spender value w
  end.

End PoolEngine.

(** Calls nest at most as deep as the virtual machine allows: with no depth
    left a callback fails, with [S depth] it runs the called function, whose
    own token transfers call back with [depth]. *)
Fixpoint reenter_at (depth : nat) (sender : N) (cb : Callback) (w : World)
    : Result World :=
  match depth with
  | O => Err CallDepthExceeded
  | S depth' => callback (reenter_at depth') sender cb w
  end.

(** A transaction: the state after a call that reverts is the state before
    it. *)
Definition transact {S A : Type} (op : S → Result (A * S)) (w : S)
    : Result A * S :=
  match op w with
  | Ok (r, w') => (Ok r, w')
  | Err e => (Err e, w)
  end.

(** ** PoolFactory *)

Inductive FactoryEvent : Type :=
| PoolCreated (tokenA tokenB pool count : N).

Record Registry : Type := mkRegistry {
  pools : gmap (N * N) N;
  allPools : list N;
  factory_events : list FactoryEvent }.

Definition empty_registry : Registry := mkRegistry ∅ [] [].

(** [pools[a][b]]: a mapping reads [0] where nothing was stored. *)
Definition pools_at (r : Registry) (a b : N) : N := default 0 (pools r !! (a, b)).

Section Factory.

(** The address at which the [n]-th [new SimplePoolWithLP(token0, token1)]
    of the factory is deployed; the virtual machine derives it from the
    factory's address and creation count, and it is never the zero
    address. *)
Variable deployed_at : nat → N.

(** [createPool], lines 26-43. *)
Definition createPool (tokenA tokenB : N) (r : Registry) : Result (N * Registry) :=
  _ ← require (negb (tokenA =? tokenB)) "Identical tokens";
  _ ← require (negb (tokenA =? 0) && negb (tokenB =? 0)) "Zero address";
  let '(token0, token1) :=
    if tokenA <? tokenB then (tokenA, tokenB) else (tokenB, tokenA) in
  _ ← require (pools_at r token0 token1 =? 0) "Pool exists";
  let pool := deployed_at (length (allPools r)) in
  let pools1 := <[(token0, token1) := pool]> (pools r) in
  let pools2 := <[(token1, token0) := pool]> pools1 in
  let all := (allPools r ++ [pool])%list in
  Ok (pool,
      mkRegistry pools2 all
        (factory_events r ++ [PoolCreated token0 token1 pool (N.of_nat (length all))])).

(** [getPool], lines 48-51; the zero address stands for "none". *)
Definition getPool (tokenA tokenB : N) (r : Registry) : N :=
  let '(token0, token1) :=
    if tokenA <? tokenB then (tokenA, tokenB) else (tokenB, tokenA) in
  pools_at r token0 token1.

(** [allPoolsLength], lines 56-58. *)
Definition allPoolsLength (r : Registry) : N := N.of_nat (length (allPools r)).

(** The registry states the factory can be in: any number of calls of
    [createPool] after deployment (a call that reverts changes nothing). *)
Inductive reachable : Registry → Prop :=
| reachable_empty : reachable empty_registry
| reachable_create r tokenA tokenB pool r' :
    reachable r →
    createPool tokenA tokenB r = Ok (pool, r') →
    reachable r'.

(** [later r r']: the factory gets from [r] to [r'] by calls of
    [createPool]. *)
Inductive later (r : Registry) : Registry → Prop :=
| later_refl : later r r
| later_create r1 tokenA tokenB pool r2 :
    later r r1 →
    createPool tokenA tokenB r1 = Ok (pool, r2) →
    later r r2.

End Factory.

(** ** Specification-side definitions and example states *)

(** The swap formula in the words of the specification. *)
Definition swap_output (amountIn reserveIn reserveOut : N) : N :=
  amountIn * (10000 - 30) * reserveOut
  / (reserveIn * 10000 + amountIn * (10000 - 30)).

Definition swap_fits (amountIn reserveIn reserveOut : N) : bool :=
  (amountIn * (10000 - 30) * reserveOut <=? MAX_UINT256)
  && (reserveIn * 10000 + amountIn * (10000 - 30) <=? MAX_UINT256).

(** What no callback changes while an operation is in progress: the
    addresses, the two token ledgers, the share supply and the flag. The
    cached reserves and the log are open to [sync], the share balances and
    authorizations to the share functions. *)
Definition ledgers (w : World) : N * Token * Token * N * bool :=
  (this w, tokenA w, tokenB w, totalSupply w, entered w).

Definition is_pool_call (cb : Callback) : bool :=
  match cb with PoolCall _ => true | _ => false end.

(** A token whose transfer logic calls none of the share functions of the
    pool. *)
Definition no_share_calls (t : Token) : bool :=
  forallb (fun h => is_pool_call (hook_call h)) (hooks t).

(** Nobody holds a share. *)
Definition no_shares (w : World) : Prop := ∀ a, lpBalanceOf w a = 0.

(** The deposit into a funded pool in the words of the specification. *)
Definition spec_deposit (reserveA reserveB totalShares : N)
    (amountADesired amountBDesired amountAMin amountBMin : N) : Result (N * N * N) :=
  let amountBOptimal := amountADesired * reserveB / reserveA in
  '(amountA, amountB) ←
    (if amountBOptimal <=? amountBDesired then
       _ ← require (amountBMin <=? amountBOptimal) "Insufficient B amount";
       Ok (amountADesired, amountBOptimal)
     else
       let amountAOptimal := amountBDesired * reserveA / reserveB in
       _ ← require ((amountAOptimal <=? amountADesired)
                     && (amountAMin <=? amountAOptimal)) "Insufficient A amount";
       Ok (amountAOptimal, amountBDesired));
  let sharesMinted :=
    N.min (amountA * totalShares / reserveA) (amountB * totalShares / reserveB) in
  if sharesMinted =? 0 then Err NoLiquidityMinted
  else Ok (sharesMinted, amountA, amountB).

(** Whether a product the deposit into a funded pool forms exceeds 256
    bits: [amountADesired * reserveB] in the first quote; in the second
    branch [amountBDesired * reserveA]; and, once the requirement of the
    branch taken passed, a product of a pulled amount and the share
    supply. *)
Definition deposit_overflows (reserveA reserveB totalShares : N)
    (amountADesired amountBDesired amountAMin amountBMin : N) : bool :=
  (MAX_UINT256 <? amountADesired * reserveB)
  || (let amountBOptimal := amountADesired * reserveB / reserveA in
      if amountBOptimal <=? amountBDesired then
        (amountBMin <=? amountBOptimal)
        && ((MAX_UINT256 <? amountADesired * totalShares)
            || (MAX_UINT256 <? amountBOptimal * totalShares))
      else
        (MAX_UINT256 <? amountBDesired * reserveA)
        || (let amountAOptimal := amountBDesired * reserveA / reserveB in
            (amountAOptimal <=? amountADesired) && (amountAMin <=? amountAOptimal)
            && ((MAX_UINT256 <? amountAOptimal * totalShares)
                || (MAX_UINT256 <? amountBDesired * totalShares)))).

Definition alice : N := 1.
Definition bob : N := 2.
Definition pool_address : N := 500.
Definition mallory : N := 666.

(** A ledger without callbacks on which [holder] owns [amount], the pool
    owns [held], and [holder] has authorized the pool for [amount]. *)
Definition plain_token (addr holder amount held : N) : Token :=
  mkToken addr
    (<[pool_address := held]> {[ holder := amount ]})
    {[ (holder, pool_address) := amount ]} [].

Definition fresh_pool : World :=
  mkWorld pool_address
    (plain_token 100 alice (1000 * 10 ^ 18) 0) (plain_token 200 alice (1000 * 10 ^ 18) 0)
    0 0 0 ∅ ∅ false [].

(** The pool of the first scenario of section 8, after
    [addLiquidity(100e18, 200e18, 0, 0)]. *)
Definition funded_pool : World :=
  Eval vm_compute in
  snd (transact (addLiquidity (reenter_at 1) alice (100 * 10 ^ 18) (200 * 10 ^ 18) 0 0)
         fresh_pool).

(** A pool without shares to which one unit of each token was sent
    directly. *)
Definition donated_pool : World :=
  mkWorld pool_address
    (plain_token 100 alice (1000 * 10 ^ 18) 1) (plain_token 200 alice (1000 * 10 ^ 18) 1)
    0 0 0 ∅ ∅ false [].

(** A pool without shares that holds two units of token A. *)
Definition dust_pool : World :=
  mkWorld pool_address
    (plain_token 100 alice (1000 * 10 ^ 18) 2) (plain_token 200 alice (1000 * 10 ^ 18) 0)
    0 0 0 ∅ ∅ false [].

(** A pool whose first deposit was [addLiquidity(2^20, 2^180, 0, 0)], on
    ledgers where the depositor holds [2^250] of each token. *)
Definition lopsided_pool : World :=
  Eval vm_compute in
  snd (transact (addLiquidity (reenter_at 1) alice (2 ^ 20) (2 ^ 180) 0 0)
         (mkWorld pool_address
            (plain_token 100 alice (2 ^ 250) 0) (plain_token 200 alice (2 ^ 250) 0)
            0 0 0 ∅ ∅ false [])).

(** Token B of the funded pool, replaced by a ledger that, from inside
    every transfer, moves [1e18] LP shares of [alice] to [mallory] with
    [transferFrom] on the pool. *)
Definition share_moving_token : Token :=
  mkToken 200 (balances (tokenB funded_pool)) (allowances (tokenB funded_pool))
    [mkHook (ShareTransferFrom alice mallory (10 ^ 18)) false].

(** The funded pool with that token, after [alice] authorized the token
    for [1e19] of her LP shares. *)
Definition share_hook_pool : World :=
  Eval vm_compute in
  set_lpAllowances {[ (alice, 200) := 10 ^ 19 ]}
    (set_token SideB share_moving_token funded_pool).

(** The cached reserves are the balances the ledgers report for the pool. *)
Definition reserves_synced (w : World) : Prop :=
  reserveA w = balanceOf (tokenA w) (this w)
  ∧ reserveB w = balanceOf (tokenB w) (this w).

Definition swapped_pool : World :=
  Eval vm_compute in snd (transact (swapAToB (reenter_at 1) alice 1000 0 alice) donated_pool).

(** The canonical ordering of a pair, as both entry points compute it. *)
Definition sort_tokens (tokenA tokenB : N) : N * N :=
  if tokenA <? tokenB then (tokenA, tokenB) else (tokenB, tokenA).

Definition created_pair (ev : FactoryEvent) : N * N :=
  match ev with PoolCreated token0 token1 _ _ => (token0, token1) end.

Definition created_pool (ev : FactoryEvent) : N :=
  match ev with PoolCreated _ _ pool _ => pool end.

(** What every reachable registry satisfies. *)
Record registry_ok (r : Registry) : Prop := {
  ok_symmetric : ∀ a b, pools_at r a b = pools_at r b a;
  ok_logged : ∀ ev, ev ∈ factory_events r →
      (created_pair ev).1 < (created_pair ev).2
      ∧ created_pool ev ≠ 0
      ∧ pools_at r (created_pair ev).1 (created_pair ev).2 = created_pool ev;
  ok_stored : ∀ a b, pools_at r a b ≠ 0 →
      ∃ ev, ev ∈ factory_events r
            ∧ created_pair ev = sort_tokens a b ∧ created_pool ev = pools_at r a b;
  ok_unique : NoDup (created_pair <$> factory_events r);
  ok_count : length (factory_events r) = length (allPools r) }.

(** Token B of the funded pool, replaced by a ledger that calls
    [swapAToB] on the pool from inside every transfer. *)
Definition reentrant_token (catches : bool) : Token :=
  mkToken 200 (balances (tokenB funded_pool)) (allowances (tokenB funded_pool))
    [mkHook (PoolCall (CallSwapAToB 1 0 mallory)) catches].

Definition attacked_pool (catches : bool) : World :=
  set_token SideB (reentrant_token catches) funded_pool.



(** The deployment addresses used in the examples. *)
Definition example_deployed_at (n : nat) : N := 1000 + N.of_nat n.

(** The funded pool after [alice] swapped [10e18] of token A. *)
Definition traded_pool : World :=
  Eval vm_compute in
  snd (transact (swapAToB (reenter_at 1) alice (10 * 10 ^ 18) 0 alice) funded_pool).

(** A pool with zero balances on which token B holds [5] shares and hands
    them to [alice] from inside its transfer. *)
Definition gifted_pool : World :=
  Eval vm_compute in
  mkWorld pool_address
    (plain_token 100 alice (1000 * 10 ^ 18) 0)
    (mkToken 200 (balances (tokenB fresh_pool)) (allowances (tokenB fresh_pool))
       [mkHook (ShareTransfer alice 5) false])
    0 0 5 {[ 200 := 5 ]} ∅ false [].

(** The getter the compiler generates for [address[] public allPools],
    line 16: reading past the end of the array reverts with empty return
    data. *)
Definition allPools_at (i : N) (r : Registry) : Result N :=
  match allPools r !! N.to_nat i with
  | Some pool => Ok pool
  | None => Err RevertNoData
  end.

Definition created_count (ev : FactoryEvent) : N :=
  match ev with PoolCreated _ _ _ count => count end.

(** What the log of every reachable registry satisfies. *)
Record registry_log_ok (deployed_at : nat → N) (r : Registry) : Prop := {
  log_pools : allPools r = created_pool <$> factory_events r;
  log_entries : ∀ i ev, factory_events r !! i = Some ev →
      created_count ev = N.of_nat (S i)
      ∧ created_pool ev = deployed_at i
      ∧ 0 < (created_pair ev).1 }.

(** * Properties *)

Lemma bind_Ok {A B : Type} (m : Result A) (f : A → Result B) (b : B) :
  m ≫= f = Ok b → ∃ a, m = Ok a ∧ f a = Ok b.
Proof. destruct m as [a|e]; simpl; [eauto | discriminate]. Qed.

Lemma require_Ok (c : bool) (reason : string) (u : unit) :
  require c reason = Ok u → c = true.
Proof. destruct c; [reflexivity | discriminate]. Qed.

Lemma checked_mul_Ok (a b c : N) :
  checked_mul a b = Ok c → c = a * b ∧ a * b ≤ MAX_UINT256.
Proof.
  unfold checked_mul. destruct (N.leb_spec (a * b) MAX_UINT256); [|discriminate].
  intros [= <-]. split; [reflexivity | assumption].
Qed.

Lemma checked_mul_fits (a b : N) :
  a * b ≤ MAX_UINT256 → checked_mul a b = Ok (a * b).
Proof.
  intros H. unfold checked_mul. destruct (N.leb_spec (a * b) MAX_UINT256); [reflexivity | lia].
Qed.

Lemma checked_mul_overflow (a b : N) :
  MAX_UINT256 < a * b → checked_mul a b = Err (Panic PANIC_OVERFLOW).
Proof.
  intros H. unfold checked_mul. destruct (N.leb_spec (a * b) MAX_UINT256); [lia | reflexivity].
Qed.

Lemma checked_add_Ok (a b c : N) :
  checked_add a b = Ok c → c = a + b ∧ a + b ≤ MAX_UINT256.
Proof.
  unfold checked_add. destruct (N.leb_spec (a + b) MAX_UINT256); [|discriminate].
  intros [= <-]. split; [reflexivity | assumption].
Qed.

Lemma checked_add_fits (a b : N) :
  a + b ≤ MAX_UINT256 → checked_add a b = Ok (a + b).
Proof.
  intros H. unfold checked_add. destruct (N.leb_spec (a + b) MAX_UINT256); [reflexivity | lia].
Qed.

Lemma checked_sub_Ok (a b c : N) :
  checked_sub a b = Ok c → c = a - b ∧ b ≤ a.
Proof.
  unfold checked_sub. destruct (N.leb_spec b a); [|discriminate].
  intros [= <-]. split; [reflexivity | assumption].
Qed.

Lemma checked_div_Ok (a b c : N) :
  checked_div a b = Ok c → c = a / b ∧ b ≠ 0.
Proof.
  unfold checked_div. destruct (N.eqb_spec b 0); [discriminate|].
  intros [= <-]. split; [reflexivity | assumption].
Qed.

Lemma checked_div_pos (a b : N) : 0 < b → checked_div a b = Ok (a / b).
Proof.
  intros H. unfold checked_div. destruct (N.eqb_spec b 0); [lia | reflexivity].
Qed.

Lemma checked_div_zero (a : N) : checked_div a 0 = Err (Panic PANIC_DIV_BY_ZERO).
Proof. reflexivity. Qed.

Lemma bind_Ok_l {A B : Type} (a : A) (f : A → Result B) : Ok a ≫= f = f a.
Proof. reflexivity. Qed.

Lemma bind_Err_l {A B : Type} (e : Failure) (f : A → Result B) : Err e ≫= f = Err e.
Proof. reflexivity. Qed.

Lemma require_true (reason : string) : require true reason = Ok tt.
Proof. reflexivity. Qed.

Lemma _getAmountOut_eval (amountIn reserveIn reserveOut : N) :
  0 < amountIn → 0 < reserveIn → 0 < reserveOut →
  _getAmountOut amountIn reserveIn reserveOut =
  if swap_fits amountIn reserveIn reserveOut
  then Ok (swap_output amountIn reserveIn reserveOut)
  else Err (Panic PANIC_OVERFLOW).
Proof.
  intros Ha Hi Ho. unfold _getAmountOut, swap_fits, swap_output.
  rewrite (proj2 (N.ltb_lt _ _) Ha), (proj2 (N.ltb_lt _ _) Hi), (proj2 (N.ltb_lt _ _) Ho).
  change (checked_sub 10000 FEE_BPS) with (Ok 9970).
  change (10000 - 30) with 9970.
  cbn [andb]. rewrite require_true, !bind_Ok_l.
  destruct (N.leb_spec (amountIn * 9970 * reserveOut) MAX_UINT256) as [H2|H2].
  - rewrite (checked_mul_fits amountIn) by nia. rewrite bind_Ok_l.
    rewrite (checked_mul_fits (amountIn * 9970)) by assumption. rewrite bind_Ok_l.
    destruct (N.leb_spec (reserveIn * 10000 + amountIn * 9970) MAX_UINT256) as [H4|H4].
    + rewrite (checked_mul_fits reserveIn) by lia. rewrite bind_Ok_l.
      rewrite checked_add_fits by assumption. rewrite bind_Ok_l.
      apply checked_div_pos. lia.
    + cbn [andb].
      destruct (N.leb_spec (reserveIn * 10000) MAX_UINT256) as [H3|H3].
      * rewrite (checked_mul_fits reserveIn) by assumption. rewrite bind_Ok_l.
        unfold checked_add.
        destruct (N.leb_spec (reserveIn * 10000 + amountIn * 9970) MAX_UINT256); [lia|].
        reflexivity.
      * rewrite (checked_mul_overflow reserveIn) by assumption. reflexivity.
  - cbn [andb].
    destruct (N.leb_spec (amountIn * 9970) MAX_UINT256) as [H1|H1].
    + rewrite (checked_mul_fits amountIn) by assumption. rewrite bind_Ok_l.
      rewrite (checked_mul_overflow (amountIn * 9970)) by assumption. reflexivity.
    + rewrite (checked_mul_overflow amountIn) by assumption. reflexivity.
Qed.

Lemma _getAmountOut_Ok (amountIn reserveIn reserveOut out : N) :
  _getAmountOut amountIn reserveIn reserveOut = Ok out →
  0 < amountIn ∧ 0 < reserveIn ∧ 0 < reserveOut
  ∧ swap_fits amountIn reserveIn reserveOut = true
  ∧ out = swap_output amountIn reserveIn reserveOut.
Proof.
  intros H.
  assert (0 < amountIn ∧ 0 < reserveIn ∧ 0 < reserveOut) as (Ha & Hi & Ho).
  { unfold _getAmountOut in H.
    destruct (N.ltb_spec 0 amountIn); [|discriminate].
    destruct (N.ltb_spec 0 reserveIn); [|discriminate].
    destruct (N.ltb_spec 0 reserveOut); [|discriminate]. auto. }
  rewrite _getAmountOut_eval in H by assumption.
  destruct (swap_fits amountIn reserveIn reserveOut); [|discriminate].
  injection H as <-. auto.
Qed.

Lemma swap_output_lt (amountIn reserveIn reserveOut : N) :
  0 < reserveIn → 0 < reserveOut →
  swap_output amountIn reserveIn reserveOut < reserveOut.
Proof.
  intros Hi Ho. unfold swap_output. change (10000 - 30) with 9970.
  apply N.Div0.div_lt_upper_bound. nia.
Qed.

Lemma swap_product_grows (amountIn reserveIn reserveOut : N) :
  0 < amountIn → 0 < reserveIn → 0 < reserveOut →
  reserveIn * reserveOut
  < (reserveIn + amountIn) * (reserveOut - swap_output amountIn reserveIn reserveOut).
Proof.
  intros Ha Hi Ho.
  pose proof (swap_output_lt amountIn reserveIn reserveOut Hi Ho) as Hlt.
  assert (swap_output amountIn reserveIn reserveOut
          * (reserveIn * 10000 + amountIn * 9970) ≤ amountIn * 9970 * reserveOut) as Hfloor.
  { unfold swap_output. change (10000 - 30) with 9970.
    rewrite N.mul_comm. apply N.Div0.mul_div_le. }
  revert Hlt Hfloor. generalize (swap_output amountIn reserveIn reserveOut) as out.
  intros out Hlt Hfloor.
  assert (∃ k, reserveOut = out + k ∧ 0 < k) as (k & Hk & Hpos)
    by (exists (reserveOut - out); lia).
  subst reserveOut.
  replace (out + k - out) with k by lia.
  nia.
Qed.

(** ** The ledgers *)

Lemma ledger_move_Ok (from to value : N) (t t' : Token) :
  ledger_move from to value t = Ok t' →
  from ≠ 0 ∧ to ≠ 0 ∧ value ≤ balanceOf t from
  ∧ token_address t' = token_address t ∧ hooks t' = hooks t
  ∧ allowances t' = allowances t
  ∧ ∀ a, balanceOf t' a =
         if decide (from = to) then balanceOf t a
         else if decide (a = to) then balanceOf t a + value
         else if decide (a = from) then balanceOf t a - value
         else balanceOf t a.
Proof.
  unfold ledger_move.
  destruct (N.eqb_spec from 0) as [|Hfrom]; [discriminate|].
  destruct (N.eqb_spec to 0) as [|Hto]; [discriminate|].
  destruct (N.ltb_spec (balanceOf t from) value) as [|Hbal]; [discriminate|].
  intros [= <-]. repeat split; try assumption.
  intros a. unfold balanceOf at 1. simpl.
  destruct (decide (from = to)) as [<-|Hne].
  - rewrite lookup_insert_eq. simpl.
    destruct (decide (a = from)) as [->|Ha].
    + rewrite lookup_insert_eq. simpl. lia.
    + rewrite !lookup_insert_ne by congruence. reflexivity.
  - destruct (decide (a = to)) as [->|Hato].
    + rewrite lookup_insert_eq. simpl.
      rewrite lookup_insert_ne by congruence. reflexivity.
    + rewrite lookup_insert_ne by congruence.
      destruct (decide (a = from)) as [->|Hafrom].
      * rewrite lookup_insert_eq. reflexivity.
      * rewrite lookup_insert_ne by congruence. reflexivity.
Qed.

Lemma ledger_spend_Ok (owner spender value : N) (t t' : Token) :
  ledger_spend owner spender value t = Ok t' →
  token_address t' = token_address t ∧ hooks t' = hooks t
  ∧ balances t' = balances t
  ∧ (allowance t owner spender = MAX_UINT256 ∨ value ≤ allowance t owner spender).
Proof.
  unfold ledger_spend.
  destruct (N.eqb_spec (allowance t owner spender) MAX_UINT256) as [Hmax|Hmax].
  - intros [= <-]. auto.
  - destruct (N.ltb_spec (allowance t owner spender) value); [discriminate|].
    intros [= <-]. simpl. auto.
Qed.

Lemma balanceOf_ext (t t' : Token) (a : N) :
  balances t' = balances t → balanceOf t' a = balanceOf t a.
Proof. unfold balanceOf. intros ->. reflexivity. Qed.

(** ** Callbacks while the guard is set *)

Lemma ledgers_eq (w w' : World) :
  ledgers w' = ledgers w →
  this w' = this w ∧ tokenA w' = tokenA w ∧ tokenB w' = tokenB w
  ∧ totalSupply w' = totalSupply w ∧ entered w' = entered w.
Proof. unfold ledgers. intros [= -> -> -> -> ->]. repeat split. Qed.

Lemma ledgers_sync (w : World) : ledgers (sync w) = ledgers w.
Proof. reflexivity. Qed.

Lemma nonReentrant_entered {A : Type} (body : World → Result (A * World)) (w : World) :
  entered w = true → nonReentrant body w = Err ReentrancyGuardReentrantCall.
Proof. unfold nonReentrant. intros ->. reflexivity. Qed.

Lemma entry_entered (reenter : N → Callback → World → Result World)
    (sender : N) (c : Call) (w : World) :
  entered w = true →
  entry reenter sender c w =
  match c with
  | CallSync => Ok (sync w)
  | _ => Err ReentrancyGuardReentrantCall
  end.
Proof.
  intros He. destruct c; simpl; try reflexivity;
    unfold addLiquidity, removeLiquidity, swapAToB, swapBToA;
    rewrite nonReentrant_entered by assumption; reflexivity.
Qed.

(** ** The share ledger *)

Lemma share_move_Ok (from to value : N) (w w' : World) :
  share_move from to value w = Ok w' →
  from ≠ 0 ∧ to ≠ 0 ∧ value ≤ lpBalanceOf w from
  ∧ ledgers w' = ledgers w
  ∧ reserveA w' = reserveA w ∧ reserveB w' = reserveB w
  ∧ lpAllowances w' = lpAllowances w ∧ events w' = events w
  ∧ ∀ a, lpBalanceOf w' a =
         if decide (from = to) then lpBalanceOf w a
         else if decide (a = to) then lpBalanceOf w a + value
         else if decide (a = from) then lpBalanceOf w a - value
         else lpBalanceOf w a.
Proof.
  unfold share_move.
  destruct (N.eqb_spec from 0) as [|Hfrom]; [discriminate|].
  destruct (N.eqb_spec to 0) as [|Hto]; [discriminate|].
  destruct (N.ltb_spec (lpBalanceOf w from) value) as [|Hbal]; [discriminate|].
  intros [= <-]. repeat split; try assumption.
  intros a. unfold lpBalanceOf at 1. simpl.
  destruct (decide (from = to)) as [<-|Hne].
  - rewrite lookup_insert_eq. simpl.
    destruct (decide (a = from)) as [->|Ha].
    + rewrite lookup_insert_eq. simpl. lia.
    + rewrite !lookup_insert_ne by congruence. reflexivity.
  - destruct (decide (a = to)) as [->|Hato].
    + rewrite lookup_insert_eq. simpl.
      rewrite lookup_insert_ne by congruence. reflexivity.
    + rewrite lookup_insert_ne by congruence.
      destruct (decide (a = from)) as [->|Hafrom].
      * rewrite lookup_insert_eq. reflexivity.
      * rewrite lookup_insert_ne by congruence. reflexivity.
Qed.

Lemma share_move_no_shares (from to value : N) (w w' : World) :
  share_move from to value w = Ok w' → no_shares w → no_shares w'.
Proof.
  intros H Hnone a.
  apply share_move_Ok in H as (_ & _ & Hle & _ & _ & _ & _ & _ & Hbal).
  rewrite Hbal. rewrite (Hnone from) in Hle. rewrite !Hnone.
  repeat destruct (decide _); lia.
Qed.

Lemma approve_Ok (sender spender value : N) (w w' : World) :
  approve sender spender value w = Ok w' →
  sender ≠ 0 ∧ spender ≠ 0
  ∧ w' = set_lpAllowances (<[(sender, spender) := value]> (lpAllowances w)) w.
Proof.
  unfold approve.
  destruct (N.eqb_spec sender 0); [discriminate|].
  destruct (N.eqb_spec spender 0); [discriminate|].
  intros [= <-]. auto.
Qed.

Lemma transferFrom_Ok (sender from to value : N) (w w' : World) :
  transferFrom sender from to value w = Ok w' →
  (lpAllowance w from sender = MAX_UINT256 ∨ value ≤ lpAllowance w from sender)
  ∧ ∃ w1, share_move from to value w1 = Ok w'
          ∧ ledgers w1 = ledgers w ∧ lpBalances w1 = lpBalances w
          ∧ reserveA w1 = reserveA w ∧ reserveB w1 = reserveB w
          ∧ events w1 = events w.
Proof.
  unfold transferFrom. intros H.
  apply bind_Ok in H as (w1 & Hspend & Hmove).
  destruct (N.eqb_spec (lpAllowance w from sender) MAX_UINT256) as [Hmax|Hmax].
  - injection Hspend as <-. split; [auto|]. exists w. auto 10.
  - destruct (N.ltb_spec (lpAllowance w from sender) value); [discriminate|].
    injection Hspend as <-. split; [auto|].
    eexists. split; [exact Hmove|]. repeat split.
Qed.

(** A callback that returns while an operation is in progress. *)
Lemma reenter_at_entered (depth : nat) (sender : N) (cb : Callback) (w w' : World) :
  entered w = true →
  reenter_at depth sender cb w = Ok w' →
  ledgers w' = ledgers w
  ∧ (is_pool_call cb = true → w' = sync w)
  ∧ (no_shares w → no_shares w').
Proof.
  intros He. destruct depth as [|depth]; simpl; [discriminate|].
  destruct cb as [c|to value|from to value|spender value]; simpl.
  - rewrite entry_entered by assumption.
    destruct c; try discriminate. intros [= <-].
    split; [apply ledgers_sync|]. split; [reflexivity|]. intros Hnone. exact Hnone.
  - intros H. split; [|split; [discriminate|]].
    + apply share_move_Ok in H as (_ & _ & _ & L & _). exact L.
    + eapply share_move_no_shares. exact H.
  - intros H. apply transferFrom_Ok in H as (_ & w1 & Hmove & L & Hb & _).
    split; [|split; [discriminate|]].
    + apply share_move_Ok in Hmove as (_ & _ & _ & L' & _). rewrite L'. exact L.
    + intros Hnone. eapply share_move_no_shares; [exact Hmove|].
      intros a. unfold lpBalanceOf. rewrite Hb. apply Hnone.
  - intros H. apply approve_Ok in H as (_ & _ & ->).
    split; [reflexivity|]. split; [discriminate|]. intros Hnone. exact Hnone.
Qed.

Lemma run_hooks_entered (depth : nat) (caller : N) (hs : list Hook) (w w' : World) :
  entered w = true →
  run_hooks (reenter_at depth) caller hs w = Ok w' →
  ledgers w' = ledgers w
  ∧ (forallb (fun h => is_pool_call (hook_call h)) hs = true →
     lpBalances w' = lpBalances w)
  ∧ (no_shares w → no_shares w').
Proof.
  revert w. induction hs as [|h hs IH]; intros w He; simpl.
  - intros [= <-]. auto.
  - destruct (reenter_at depth caller (hook_call h) w) as [w1|e] eqn:Hcall.
    + apply reenter_at_entered in Hcall as (L1 & Hsync & Hnone1); [|assumption].
      intros Hrest. apply IH in Hrest as (L & Hquiet & Hnone).
      * split; [rewrite L; exact L1|]. split.
        -- intros Hq. apply andb_prop in Hq as [Hq1 Hq2].
           rewrite (Hquiet Hq2), (Hsync Hq1). reflexivity.
        -- intros Hn. apply Hnone, Hnone1, Hn.
      * apply ledgers_eq in L1 as (_ & _ & _ & _ & ->). exact He.
    + destruct (hook_catches h); [|discriminate].
      intros Hrest. apply IH in Hrest as (L & Hquiet & Hnone); [|exact He].
      split; [exact L|]. split; [|exact Hnone].
      intros Hq. apply andb_prop in Hq as [_ Hq2]. exact (Hquiet Hq2).
Qed.

Lemma run_hooks_nil (reenter : N → Callback → World → Result World) (caller : N) (w : World) :
  run_hooks reenter caller [] w = Ok w.
Proof. reflexivity. Qed.

Lemma ledger_move_hooks (from to value : N) (t t' : Token) :
  ledger_move from to value t = Ok t' → hooks t' = hooks t.
Proof.
  unfold ledger_move.
  destruct (from =? 0); [discriminate|]. destruct (to =? 0); [discriminate|].
  destruct (balanceOf t from <? value); [discriminate|]. intros [= <-]. reflexivity.
Qed.

Lemma ledger_spend_hooks (owner spender value : N) (t t' : Token) :
  ledger_spend owner spender value t = Ok t' → hooks t' = hooks t.
Proof.
  unfold ledger_spend.
  destruct (allowance t owner spender =? MAX_UINT256); [intros [= <-]; reflexivity|].
  destruct (allowance t owner spender <? value); [discriminate|].
  intros [= <-]. reflexivity.
Qed.

Lemma safeTransfer_Ok (depth : nat) (s : Side) (to value : N) (w w' : World) :
  entered w = true →
  safeTransfer (reenter_at depth) s to value w = Ok w' →
  ∃ t, ledger_move (this w) to value (token_of s w) = Ok t
       ∧ ledgers w' = ledgers (set_token s t w)
       ∧ (no_share_calls (token_of s w) = true → lpBalances w' = lpBalances w)
       ∧ (no_shares w → no_shares w').
Proof.
  intros He H. unfold safeTransfer in H.
  apply bind_Ok in H as (t & Hmove & Hhooks).
  exists t. split; [assumption|].
  apply run_hooks_entered in Hhooks as (L & Hquiet & Hnone); [|destruct s; exact He].
  split; [exact L|]. split.
  - unfold no_share_calls. rewrite <- (ledger_move_hooks _ _ _ _ _ Hmove).
    intros Hq. rewrite (Hquiet Hq). destruct s; reflexivity.
  - intros Hn. apply Hnone. destruct s; exact Hn.
Qed.

Lemma safeTransferFrom_Ok (depth : nat) (s : Side) (from value : N) (w w' : World) :
  entered w = true →
  safeTransferFrom (reenter_at depth) s from value w = Ok w' →
  ∃ t1 t2, ledger_spend from (this w) value (token_of s w) = Ok t1
           ∧ ledger_move from (this w) value t1 = Ok t2
           ∧ ledgers w' = ledgers (set_token s t2 w)
           ∧ (no_share_calls (token_of s w) = true → lpBalances w' = lpBalances w)
           ∧ (no_shares w → no_shares w').
Proof.
  intros He H. unfold safeTransferFrom in H.
  apply bind_Ok in H as (t1 & Hspend & H).
  apply bind_Ok in H as (t2 & Hmove & Hhooks).
  exists t1, t2. split; [assumption|]. split; [assumption|].
  apply run_hooks_entered in Hhooks as (L & Hquiet & Hnone); [|destruct s; exact He].
  split; [exact L|]. split.
  - unfold no_share_calls.
    rewrite <- (ledger_spend_hooks _ _ _ _ _ Hspend), <- (ledger_move_hooks _ _ _ _ _ Hmove).
    intros Hq. rewrite (Hquiet Hq). destruct s; reflexivity.
  - intros Hn. apply Hnone. destruct s; exact Hn.
Qed.

(** ** What a completed operation did *)

Lemma nonReentrant_Ok {A : Type} (body : World → Result (A * World))
    (w : World) (r : A) (w' : World) :
  nonReentrant body w = Ok (r, w') →
  entered w = false
  ∧ ∃ w1, body (set_entered true w) = Ok (r, w1) ∧ w' = set_entered false w1.
Proof.
  unfold nonReentrant. destruct (entered w); [discriminate|].
  intros H. apply bind_Ok in H as ([r1 w1] & Hbody & [= <- <-]).
  split; [reflexivity|]. exists w1. auto.
Qed.

Lemma nonReentrant_Err {A : Type} (body : World → Result (A * World))
    (w : World) (e : Failure) :
  entered w = false → body (set_entered true w) = Err e → nonReentrant body w = Err e.
Proof. unfold nonReentrant. intros -> ->. reflexivity. Qed.

Lemma swapAToB_Ok (depth : nat) (sender amountAIn amountBOutMin to : N)
    (w : World) (amountBOut : N) (w' : World) :
  swapAToB (reenter_at depth) sender amountAIn amountBOutMin to w = Ok (amountBOut, w') →
  entered w = false
  ∧ _getAmountOut amountAIn (balanceOf (tokenA w) (this w)) (balanceOf (tokenB w) (this w))
    = Ok amountBOut
  ∧ amountBOutMin ≤ amountBOut
  ∧ ∃ tA1 tA2 tB2,
      ledger_spend sender (this w) amountAIn (tokenA w) = Ok tA1
      ∧ ledger_move sender (this w) amountAIn tA1 = Ok tA2
      ∧ ledger_move (this w) to amountBOut (tokenB w) = Ok tB2
      ∧ this w' = this w ∧ tokenA w' = tA2 ∧ tokenB w' = tB2
      ∧ reserveA w' = balanceOf tA2 (this w) ∧ reserveB w' = balanceOf tB2 (this w)
      ∧ totalSupply w' = totalSupply w
      ∧ (no_share_calls (tokenA w) = true → no_share_calls (tokenB w) = true →
         lpBalances w' = lpBalances w)
      ∧ entered w' = false.
Proof.
  intros H. unfold swapAToB in H.
  apply nonReentrant_Ok in H as (He & w1 & H & ->).
  split; [assumption|].
  cbv beta zeta in H.
  apply bind_Ok in H as (out & Hout & H).
  apply bind_Ok in H as (u & Hreq & H).
  apply require_Ok, N.leb_le in Hreq.
  apply bind_Ok in H as (w2 & Hin & H).
  apply bind_Ok in H as (w3 & Hpay & H).
  injection H as <- <-.
  apply safeTransferFrom_Ok in Hin as (tA1 & tA2 & Hspend & Hmove & L2 & Q2 & _);
    [|reflexivity].
  apply ledgers_eq in L2 as (L2this & L2A & L2B & L2s & L2e).
  apply safeTransfer_Ok in Hpay as (tB2 & Hmove' & L3 & Q3 & _); [|rewrite L2e; reflexivity].
  apply ledgers_eq in L3 as (L3this & L3A & L3B & L3s & L3e).
  simpl in *. rewrite L2this, L2B in Hmove'. rewrite L2B in Q3.
  split; [exact Hout|]. split; [exact Hreq|].
  exists tA1, tA2, tB2.
  rewrite L3this, L3A, L3B, L3s, L2this, L2A, L2s.
  repeat split; try assumption.
  intros QA QB. rewrite (Q3 QB), (Q2 QA). reflexivity.
Qed.

Lemma swapBToA_Ok (depth : nat) (sender amountBIn amountAOutMin to : N)
    (w : World) (amountAOut : N) (w' : World) :
  swapBToA (reenter_at depth) sender amountBIn amountAOutMin to w = Ok (amountAOut, w') →
  entered w = false
  ∧ _getAmountOut amountBIn (balanceOf (tokenB w) (this w)) (balanceOf (tokenA w) (this w))
    = Ok amountAOut
  ∧ amountAOutMin ≤ amountAOut
  ∧ ∃ tB1 tB2 tA2,
      ledger_spend sender (this w) amountBIn (tokenB w) = Ok tB1
      ∧ ledger_move sender (this w) amountBIn tB1 = Ok tB2
      ∧ ledger_move (this w) to amountAOut (tokenA w) = Ok tA2
      ∧ this w' = this w ∧ tokenA w' = tA2 ∧ tokenB w' = tB2
      ∧ reserveA w' = balanceOf tA2 (this w) ∧ reserveB w' = balanceOf tB2 (this w)
      ∧ totalSupply w' = totalSupply w
      ∧ (no_share_calls (tokenA w) = true → no_share_calls (tokenB w) = true →
         lpBalances w' = lpBalances w)
      ∧ entered w' = false.
Proof.
  intros H. unfold swapBToA in H.
  apply nonReentrant_Ok in H as (He & w1 & H & ->).
  split; [assumption|].
  cbv beta zeta in H.
  apply bind_Ok in H as (out & Hout & H).
  apply bind_Ok in H as (u & Hreq & H).
  apply require_Ok, N.leb_le in Hreq.
  apply bind_Ok in H as (w2 & Hin & H).
  apply bind_Ok in H as (w3 & Hpay & H).
  injection H as <- <-.
  apply safeTransferFrom_Ok in Hin as (tB1 & tB2 & Hspend & Hmove & L2 & Q2 & _);
    [|reflexivity].
  apply ledgers_eq in L2 as (L2this & L2A & L2B & L2s & L2e).
  apply safeTransfer_Ok in Hpay as (tA2 & Hmove' & L3 & Q3 & _); [|rewrite L2e; reflexivity].
  apply ledgers_eq in L3 as (L3this & L3A & L3B & L3s & L3e).
  simpl in *. rewrite L2this, L2A in Hmove'. rewrite L2A in Q3.
  split; [exact Hout|]. split; [exact Hreq|].
  exists tB1, tB2, tA2.
  rewrite L3this, L3A, L3B, L3s, L2this, L2B, L2s.
  repeat split; try assumption.
  intros QA QB. rewrite (Q3 QA), (Q2 QB). reflexivity.
Qed.

Lemma _mint_Ok (account value : N) (w w' : World) :
  _mint account value w = Ok w' →
  account ≠ 0 ∧ totalSupply w + value ≤ MAX_UINT256
  ∧ w' = set_shares (totalSupply w + value)
           (<[account := lpBalanceOf w account + value]> (lpBalances w)) w.
Proof.
  unfold _mint. destruct (N.eqb_spec account 0); [discriminate|].
  intros H. apply bind_Ok in H as (supply & Hadd & [= <-]).
  apply checked_add_Ok in Hadd as [-> Hle]. auto.
Qed.

Lemma _burn_Ok (account value : N) (w w' : World) :
  _burn account value w = Ok w' →
  account ≠ 0 ∧ value ≤ lpBalanceOf w account
  ∧ w' = set_shares (totalSupply w - value)
           (<[account := lpBalanceOf w account - value]> (lpBalances w)) w.
Proof.
  unfold _burn. destruct (N.eqb_spec account 0); [discriminate|].
  destruct (N.ltb_spec (lpBalanceOf w account) value); [discriminate|].
  intros [= <-]. auto.
Qed.

Lemma addLiquidity_Ok (depth : nat)
    (sender amountADesired amountBDesired amountAMin amountBMin : N)
    (w : World) (liquidity : N) (w' : World) :
  addLiquidity (reenter_at depth) sender
    amountADesired amountBDesired amountAMin amountBMin w = Ok (liquidity, w') →
  entered w = false
  ∧ ∃ amountA amountB tA1 tA2 tB1 tB2,
      addLiquidity_amounts (balanceOf (tokenA w) (this w)) (balanceOf (tokenB w) (this w))
        (totalSupply w) amountADesired amountBDesired amountAMin amountBMin
      = Ok (liquidity, amountA, amountB)
      ∧ ledger_spend sender (this w) amountA (tokenA w) = Ok tA1
      ∧ ledger_move sender (this w) amountA tA1 = Ok tA2
      ∧ ledger_spend sender (this w) amountB (tokenB w) = Ok tB1
      ∧ ledger_move sender (this w) amountB tB1 = Ok tB2
      ∧ this w' = this w ∧ tokenA w' = tA2 ∧ tokenB w' = tB2
      ∧ reserveA w' = balanceOf tA2 (this w) ∧ reserveB w' = balanceOf tB2 (this w)
      ∧ sender ≠ 0
      ∧ totalSupply w + liquidity ≤ MAX_UINT256
      ∧ totalSupply w' = totalSupply w + liquidity
      ∧ ((no_share_calls (tokenA w) = true ∧ no_share_calls (tokenB w) = true
          → lpBalances w' = <[sender := lpBalanceOf w sender + liquidity]> (lpBalances w))
         ∧ (no_shares w → ∀ a, lpBalanceOf w' a = if decide (a = sender) then liquidity else 0))
      ∧ entered w' = false.
Proof.
  intros H. unfold addLiquidity in H.
  apply nonReentrant_Ok in H as (He & w1 & H & ->).
  split; [assumption|].
  cbv beta zeta in H.
  apply bind_Ok in H as ([[liq a] b] & Hamounts & H).
  apply bind_Ok in H as (w2 & HinA & H).
  apply bind_Ok in H as (w3 & HinB & H).
  apply bind_Ok in H as (w4 & Hmint & H).
  injection H as <- <-.
  apply safeTransferFrom_Ok in HinA as (tA1 & tA2 & HspendA & HmoveA & L2 & Q2 & N2);
    [|reflexivity].
  apply ledgers_eq in L2 as (L2this & L2A & L2B & L2s & L2e).
  apply safeTransferFrom_Ok in HinB as (tB1 & tB2 & HspendB & HmoveB & L3 & Q3 & N3);
    [|rewrite L2e; reflexivity].
  apply ledgers_eq in L3 as (L3this & L3A & L3B & L3s & L3e).
  apply _mint_Ok in Hmint as (Hsender & Hsupply & ->).
  simpl in *. rewrite L2this, L2B in HspendB. rewrite L2this in HmoveB. rewrite L2B in Q3.
  exists a, b, tA1, tA2, tB1, tB2.
  rewrite L3this, L3A, L3B, L3s, L2this, L2A, L2s in *.
  repeat split; try assumption.
  - intros [QA QB]. unfold lpBalanceOf. simpl. rewrite (Q3 QB), (Q2 QA). reflexivity.
  - intros Hnone a0.
    assert (no_shares w3) as Hn3 by (apply N3, N2; exact Hnone).
    unfold lpBalanceOf at 1. simpl.
    destruct (decide (a0 = sender)) as [->|Hne].
    + rewrite lookup_insert_eq. simpl.
      change (lpBalanceOf (_update w3) sender) with (lpBalanceOf w3 sender).
      rewrite (Hn3 sender). reflexivity.
    + rewrite lookup_insert_ne by congruence. exact (Hn3 a0).
Qed.

Lemma removeLiquidity_Ok (depth : nat)
    (sender liquidity amountAMin amountBMin to : N)
    (w : World) (amountA amountB : N) (w' : World) :
  removeLiquidity (reenter_at depth) sender liquidity amountAMin amountBMin to w
  = Ok (amountA, amountB, w') →
  entered w = false
  ∧ removeLiquidity_amounts (balanceOf (tokenA w) (this w)) (balanceOf (tokenB w) (this w))
      (totalSupply w) liquidity amountAMin amountBMin = Ok (amountA, amountB)
  ∧ sender ≠ 0 ∧ liquidity ≤ lpBalanceOf w sender
  ∧ ∃ tA2 tB2,
      ledger_move (this w) to amountA (tokenA w) = Ok tA2
      ∧ ledger_move (this w) to amountB (tokenB w) = Ok tB2
      ∧ this w' = this w ∧ tokenA w' = tA2 ∧ tokenB w' = tB2
      ∧ reserveA w' = balanceOf tA2 (this w) ∧ reserveB w' = balanceOf tB2 (this w)
      ∧ totalSupply w' = totalSupply w - liquidity
      ∧ (no_share_calls (tokenA w) = true → no_share_calls (tokenB w) = true →
         lpBalances w' = <[sender := lpBalanceOf w sender - liquidity]> (lpBalances w))
      ∧ entered w' = false.
Proof.
  intros H. unfold removeLiquidity in H.
  apply nonReentrant_Ok in H as (He & w1 & H & ->).
  split; [assumption|].
  cbv beta zeta in H.
  apply bind_Ok in H as ([a b] & Hamounts & H).
  apply bind_Ok in H as (w2 & Hburn & H).
  apply bind_Ok in H as (w3 & HoutA & H).
  apply bind_Ok in H as (w4 & HoutB & H).
  injection H as <- <- <-.
  apply _burn_Ok in Hburn as (Hsender & Hbal & ->).
  apply safeTransfer_Ok in HoutA as (tA2 & HmoveA & L3 & Q3 & _); [|reflexivity].
  apply ledgers_eq in L3 as (L3this & L3A & L3B & L3s & L3e).
  apply safeTransfer_Ok in HoutB as (tB2 & HmoveB & L4 & Q4 & _); [|rewrite L3e; reflexivity].
  apply ledgers_eq in L4 as (L4this & L4A & L4B & L4s & L4e).
  simpl in *. rewrite L3this, L3B in HmoveB. rewrite L3B in Q4.
  unfold lpBalanceOf in *. simpl in *.
  split; [exact Hamounts|]. split; [assumption|]. split; [assumption|].
  exists tA2, tB2.
  rewrite L4this, L4A, L4B, L4s, L3this, L3A, L3s.
  repeat split; try assumption.
  intros QA QB. rewrite (Q4 QB), (Q3 QA). reflexivity.
Qed.

(** Failures before the first transfer. *)

Lemma addLiquidity_Err (reenter : N → Callback → World → Result World)
    (sender amountADesired amountBDesired amountAMin amountBMin : N)
    (w : World) (e : Failure) :
  entered w = false →
  addLiquidity_amounts (balanceOf (tokenA w) (this w)) (balanceOf (tokenB w) (this w))
    (totalSupply w) amountADesired amountBDesired amountAMin amountBMin = Err e →
  addLiquidity reenter sender amountADesired amountBDesired amountAMin amountBMin w = Err e.
Proof.
  intros He H. unfold addLiquidity. apply nonReentrant_Err; [assumption|].
  cbv beta zeta. simpl. rewrite H. reflexivity.
Qed.

Lemma removeLiquidity_Err (reenter : N → Callback → World → Result World)
    (sender liquidity amountAMin amountBMin to : N) (w : World) (e : Failure) :
  entered w = false →
  removeLiquidity_amounts (balanceOf (tokenA w) (this w)) (balanceOf (tokenB w) (this w))
    (totalSupply w) liquidity amountAMin amountBMin = Err e →
  removeLiquidity reenter sender liquidity amountAMin amountBMin to w = Err e.
Proof.
  intros He H. unfold removeLiquidity. apply nonReentrant_Err; [assumption|].
  cbv beta zeta. simpl. rewrite H. reflexivity.
Qed.

(** ** Operations on ledgers without callbacks *)

Lemma ledger_move_succeeds (from to value : N) (t : Token) :
  from ≠ 0 → to ≠ 0 → value ≤ balanceOf t from →
  ∃ t', ledger_move from to value t = Ok t' ∧ hooks t' = hooks t.
Proof.
  intros Hfrom Hto Hbal. unfold ledger_move.
  destruct (N.eqb_spec from 0); [contradiction|].
  destruct (N.eqb_spec to 0); [contradiction|].
  destruct (N.ltb_spec (balanceOf t from) value); [lia|].
  eexists. split; reflexivity.
Qed.

Lemma ledger_spend_succeeds (owner spender value : N) (t : Token) :
  value ≤ allowance t owner spender →
  ∃ t', ledger_spend owner spender value t = Ok t'
        ∧ hooks t' = hooks t ∧ balances t' = balances t.
Proof.
  intros Hallow. unfold ledger_spend.
  destruct (N.eqb_spec (allowance t owner spender) MAX_UINT256).
  - eexists. repeat split.
  - destruct (N.ltb_spec (allowance t owner spender) value); [lia|].
    eexists. repeat split.
Qed.

Lemma safeTransfer_plain (reenter : N → Callback → World → Result World)
    (s : Side) (to value : N) (w : World) :
  hooks (token_of s w) = [] → this w ≠ 0 → to ≠ 0 →
  value ≤ balanceOf (token_of s w) (this w) →
  ∃ t, ledger_move (this w) to value (token_of s w) = Ok t
       ∧ safeTransfer reenter s to value w = Ok (set_token s t w).
Proof.
  intros Hhooks Hthis Hto Hbal.
  destruct (ledger_move_succeeds (this w) to value (token_of s w)) as (t & Hmove & Ht);
    try assumption.
  exists t. split; [assumption|].
  unfold safeTransfer. rewrite Hmove. simpl. rewrite Ht, Hhooks. reflexivity.
Qed.

Lemma safeTransferFrom_plain (reenter : N → Callback → World → Result World)
    (s : Side) (from value : N) (w : World) :
  hooks (token_of s w) = [] → this w ≠ 0 → from ≠ 0 →
  value ≤ allowance (token_of s w) from (this w) →
  value ≤ balanceOf (token_of s w) from →
  ∃ t, hooks t = [] ∧ safeTransferFrom reenter s from value w = Ok (set_token s t w).
Proof.
  intros Hhooks Hthis Hfrom Hallow Hbal.
  destruct (ledger_spend_succeeds from (this w) value (token_of s w))
    as (t1 & Hspend & Hh1 & Hb1); [assumption|].
  destruct (ledger_move_succeeds from (this w) value t1) as (t2 & Hmove & Hh2);
    try assumption.
  { rewrite (balanceOf_ext (token_of s w) t1) by assumption. assumption. }
  exists t2. split; [congruence|].
  unfold safeTransferFrom. rewrite Hspend. simpl. rewrite Hmove. simpl.
  rewrite Hh2, Hh1, Hhooks. reflexivity.
Qed.

Lemma swapAToB_succeeds (reenter : N → Callback → World → Result World)
    (sender amountAIn amountBOutMin to : N) (w : World) (amountBOut : N) :
  entered w = false →
  hooks (tokenA w) = [] → hooks (tokenB w) = [] →
  this w ≠ 0 → sender ≠ 0 → to ≠ 0 →
  amountAIn ≤ allowance (tokenA w) sender (this w) →
  amountAIn ≤ balanceOf (tokenA w) sender →
  _getAmountOut amountAIn (balanceOf (tokenA w) (this w)) (balanceOf (tokenB w) (this w))
  = Ok amountBOut →
  amountBOutMin ≤ amountBOut →
  ∃ w', swapAToB reenter sender amountAIn amountBOutMin to w = Ok (amountBOut, w').
Proof.
  intros He HhA HhB Hthis Hsender Hto Hallow Hbal Hout Hmin.
  unfold swapAToB, nonReentrant. rewrite He. cbv beta zeta.
  change (reserveA (_update (set_entered true w))) with (balanceOf (tokenA w) (this w)).
  change (reserveB (_update (set_entered true w))) with (balanceOf (tokenB w) (this w)).
  rewrite Hout. rewrite bind_Ok_l.
  rewrite (proj2 (N.leb_le _ _) Hmin). rewrite require_true, bind_Ok_l.
  destruct (safeTransferFrom_plain reenter SideA sender amountAIn (_update (set_entered true w)))
    as (tA & HhA' & ->); try assumption.
  rewrite bind_Ok_l.
  apply _getAmountOut_Ok in Hout as (_ & Hi & Ho & _ & ->).
  destruct (safeTransfer_plain reenter SideB to
              (swap_output amountAIn (balanceOf (tokenA w) (this w)) (balanceOf (tokenB w) (this w)))
              (set_token SideA tA (_update (set_entered true w))))
    as (tB & _ & ->); try assumption.
  { simpl. pose proof (swap_output_lt amountAIn _ _ Hi Ho). lia. }
  rewrite bind_Ok_l. eexists. reflexivity.
Qed.

Lemma swapBToA_succeeds (reenter : N → Callback → World → Result World)
    (sender amountBIn amountAOutMin to : N) (w : World) (amountAOut : N) :
  entered w = false →
  hooks (tokenA w) = [] → hooks (tokenB w) = [] →
  this w ≠ 0 → sender ≠ 0 → to ≠ 0 →
  amountBIn ≤ allowance (tokenB w) sender (this w) →
  amountBIn ≤ balanceOf (tokenB w) sender →
  _getAmountOut amountBIn (balanceOf (tokenB w) (this w)) (balanceOf (tokenA w) (this w))
  = Ok amountAOut →
  amountAOutMin ≤ amountAOut →
  ∃ w', swapBToA reenter sender amountBIn amountAOutMin to w = Ok (amountAOut, w').
Proof.
  intros He HhA HhB Hthis Hsender Hto Hallow Hbal Hout Hmin.
  unfold swapBToA, nonReentrant. rewrite He. cbv beta zeta.
  change (reserveA (_update (set_entered true w))) with (balanceOf (tokenA w) (this w)).
  change (reserveB (_update (set_entered true w))) with (balanceOf (tokenB w) (this w)).
  rewrite Hout. rewrite bind_Ok_l.
  rewrite (proj2 (N.leb_le _ _) Hmin). rewrite require_true, bind_Ok_l.
  destruct (safeTransferFrom_plain reenter SideB sender amountBIn (_update (set_entered true w)))
    as (tB & HhB' & ->); try assumption.
  rewrite bind_Ok_l.
  apply _getAmountOut_Ok in Hout as (_ & Hi & Ho & _ & ->).
  destruct (safeTransfer_plain reenter SideA to
              (swap_output amountBIn (balanceOf (tokenB w) (this w)) (balanceOf (tokenA w) (this w)))
              (set_token SideB tB (_update (set_entered true w))))
    as (tA & _ & ->); try assumption.
  { simpl. pose proof (swap_output_lt amountBIn _ _ Hi Ho). lia. }
  rewrite bind_Ok_l. eexists. reflexivity.
Qed.

(** C1. For every [amountIn > 0] and reserves [reserveIn > 0],
    [reserveOut > 0], the output computed by [_getAmountOut], by the view
    [getAmountOut] and by [swapAToB] and [swapBToA] is exactly
    floor(amountIn * (10000 - 30) * reserveOut
          / (reserveIn * 10000 + amountIn * (10000 - 30))):
    the 30 bps fee is taken from the input before the constant-product
    formula. The helper returns this value whenever the numerator and the
    denominator fit in 256 bits and fails with the overflow panic otherwise;
    a swap that returns, returns it for the balances the ledgers report; and
    on ledgers without callbacks a swap does return it once the caller has
    the funds and the authorization and the minimum is met. *)
Theorem C1_swap_output_formula (amountIn reserveIn reserveOut : N) :
  0 < amountIn → 0 < reserveIn → 0 < reserveOut →
  _getAmountOut amountIn reserveIn reserveOut
  = (if swap_fits amountIn reserveIn reserveOut
     then Ok (swap_output amountIn reserveIn reserveOut)
     else Err (Panic PANIC_OVERFLOW))
  ∧ (∀ w, reserveA w = reserveIn → reserveB w = reserveOut →
          getAmountOut amountIn true w = _getAmountOut amountIn reserveIn reserveOut)
  ∧ (∀ w, reserveB w = reserveIn → reserveA w = reserveOut →
          getAmountOut amountIn false w = _getAmountOut amountIn reserveIn reserveOut)
  ∧ (∀ depth sender amountOutMin to w amountOut w',
        balanceOf (tokenA w) (this w) = reserveIn →
        balanceOf (tokenB w) (this w) = reserveOut →
        swapAToB (reenter_at depth) sender amountIn amountOutMin to w = Ok (amountOut, w') →
        amountOut = swap_output amountIn reserveIn reserveOut)
  ∧ (∀ depth sender amountOutMin to w amountOut w',
        balanceOf (tokenB w) (this w) = reserveIn →
        balanceOf (tokenA w) (this w) = reserveOut →
        swapBToA (reenter_at depth) sender amountIn amountOutMin to w = Ok (amountOut, w') →
        amountOut = swap_output amountIn reserveIn reserveOut)
  ∧ (∀ depth sender amountOutMin to w,
        balanceOf (tokenA w) (this w) = reserveIn →
        balanceOf (tokenB w) (this w) = reserveOut →
        entered w = false → hooks (tokenA w) = [] → hooks (tokenB w) = [] →
        this w ≠ 0 → sender ≠ 0 → to ≠ 0 →
        amountIn ≤ allowance (tokenA w) sender (this w) →
        amountIn ≤ balanceOf (tokenA w) sender →
        swap_fits amountIn reserveIn reserveOut = true →
        amountOutMin ≤ swap_output amountIn reserveIn reserveOut →
        ∃ w', swapAToB (reenter_at depth) sender amountIn amountOutMin to w
              = Ok (swap_output amountIn reserveIn reserveOut, w'))
  ∧ (∀ depth sender amountOutMin to w,
        balanceOf (tokenB w) (this w) = reserveIn →
        balanceOf (tokenA w) (this w) = reserveOut →
        entered w = false → hooks (tokenA w) = [] → hooks (tokenB w) = [] →
        this w ≠ 0 → sender ≠ 0 → to ≠ 0 →
        amountIn ≤ allowance (tokenB w) sender (this w) →
        amountIn ≤ balanceOf (tokenB w) sender →
        swap_fits amountIn reserveIn reserveOut = true →
        amountOutMin ≤ swap_output amountIn reserveIn reserveOut →
        ∃ w', swapBToA (reenter_at depth) sender amountIn amountOutMin to w
              = Ok (swap_output amountIn reserveIn reserveOut, w')).
Proof.
  intros Ha Hi Ho.
  pose proof (_getAmountOut_eval amountIn reserveIn reserveOut Ha Hi Ho) as Heval.
  split; [exact Heval|].
  split; [intros w <- <-; reflexivity|].
  split; [intros w <- <-; reflexivity|].
  split.
  { intros depth sender amountOutMin to w amountOut w' <- <- Hswap.
    apply swapAToB_Ok in Hswap as (_ & Hout & _).
    apply _getAmountOut_Ok in Hout. tauto. }
  split.
  { intros depth sender amountOutMin to w amountOut w' <- <- Hswap.
    apply swapBToA_Ok in Hswap as (_ & Hout & _).
    apply _getAmountOut_Ok in Hout. tauto. }
  split.
  - intros depth sender amountOutMin to w <- <- He HhA HhB Hthis Hsender Hto Hallow Hbal Hfits Hmin.
    rewrite Hfits in Heval.
    eapply swapAToB_succeeds; eassumption.
  - intros depth sender amountOutMin to w <- <- He HhA HhB Hthis Hsender Hto Hallow Hbal Hfits Hmin.
    rewrite Hfits in Heval.
    eapply swapBToA_succeeds; eassumption.
Qed.

(** C1 at the swap of the second scenario of section 8. *)
Lemma C1_swap_output_formula_witness :
  _getAmountOut (10 * 10 ^ 18) (100 * 10 ^ 18) (200 * 10 ^ 18) = Ok 18132217877602982631.
Proof.
  exact (proj1 (C1_swap_output_formula (10 * 10 ^ 18) (100 * 10 ^ 18) (200 * 10 ^ 18)
                  eq_refl eq_refl eq_refl)).
Defined.

(** C2. For a swap in either direction with [amountIn > 0] and positive
    reserves, the output is below [reserveOut], and with
    [reserveIn' = reserveIn + amountIn] and
    [reserveOut' = reserveOut - amountOut] the product strictly grows:
    [reserveIn * reserveOut < reserveIn' * reserveOut']. A completed
    [swapAToB] or [swapBToA] whose caller and recipient are not the pool
    leaves exactly these reserves. *)
Theorem C2_swap_product_strictly_grows (amountIn reserveIn reserveOut amountOut : N) :
  0 < amountIn → 0 < reserveIn → 0 < reserveOut →
  _getAmountOut amountIn reserveIn reserveOut = Ok amountOut →
  amountOut < reserveOut
  ∧ reserveIn * reserveOut < (reserveIn + amountIn) * (reserveOut - amountOut)
  ∧ (∀ depth sender amountOutMin to w out w',
        sender ≠ this w → to ≠ this w →
        balanceOf (tokenA w) (this w) = reserveIn →
        balanceOf (tokenB w) (this w) = reserveOut →
        swapAToB (reenter_at depth) sender amountIn amountOutMin to w = Ok (out, w') →
        reserveA w' = reserveIn + amountIn ∧ reserveB w' = reserveOut - amountOut
        ∧ reserveIn * reserveOut < reserveA w' * reserveB w')
  ∧ (∀ depth sender amountOutMin to w out w',
        sender ≠ this w → to ≠ this w →
        balanceOf (tokenB w) (this w) = reserveIn →
        balanceOf (tokenA w) (this w) = reserveOut →
        swapBToA (reenter_at depth) sender amountIn amountOutMin to w = Ok (out, w') →
        reserveB w' = reserveIn + amountIn ∧ reserveA w' = reserveOut - amountOut
        ∧ reserveIn * reserveOut < reserveB w' * reserveA w').
Proof.
  intros Ha Hi Ho Hout.
  apply _getAmountOut_Ok in Hout as Hout'. destruct Hout' as (_ & _ & _ & _ & ->).
  pose proof (swap_output_lt amountIn reserveIn reserveOut Hi Ho) as Hlt.
  pose proof (swap_product_grows amountIn reserveIn reserveOut Ha Hi Ho) as Hgrow.
  split; [exact Hlt|]. split; [exact Hgrow|]. split.
  - intros depth sender amountOutMin to w out w' Hsender Hto HA HB Hswap.
    apply swapAToB_Ok in Hswap
      as (_ & Hout2 & _ & tA1 & tA2 & tB2 & Hspend & HmoveA & HmoveB & _ & _ & _ & -> & -> & _).
    rewrite HA, HB, Hout in Hout2. injection Hout2 as <-.
    apply ledger_spend_Ok in Hspend as (_ & _ & Hbal1 & _).
    apply ledger_move_Ok in HmoveA as (_ & _ & _ & _ & _ & _ & HbalA).
    apply ledger_move_Ok in HmoveB as (_ & _ & _ & _ & _ & _ & HbalB).
    rewrite HbalA, HbalB.
    repeat (destruct (decide _); try congruence).
    rewrite (balanceOf_ext (tokenA w) tA1) by assumption.
    rewrite HA, HB. auto.
  - intros depth sender amountOutMin to w out w' Hsender Hto HB HA Hswap.
    apply swapBToA_Ok in Hswap
      as (_ & Hout2 & _ & tB1 & tB2 & tA2 & Hspend & HmoveB & HmoveA & _ & _ & _ & -> & -> & _).
    rewrite HA, HB, Hout in Hout2. injection Hout2 as <-.
    apply ledger_spend_Ok in Hspend as (_ & _ & Hbal1 & _).
    apply ledger_move_Ok in HmoveA as (_ & _ & _ & _ & _ & _ & HbalA).
    apply ledger_move_Ok in HmoveB as (_ & _ & _ & _ & _ & _ & HbalB).
    rewrite HbalA, HbalB.
    repeat (destruct (decide _); try congruence).
    rewrite (balanceOf_ext (tokenB w) tB1) by assumption.
    rewrite HA, HB. auto.
Qed.

(** C2 at the swap of the second scenario of section 8. *)
Lemma C2_swap_product_strictly_grows_witness :
  18132217877602982631 < 200 * 10 ^ 18
  ∧ (100 * 10 ^ 18) * (200 * 10 ^ 18)
    < (100 * 10 ^ 18 + 10 * 10 ^ 18) * (200 * 10 ^ 18 - 18132217877602982631).
Proof.
  pose proof (C2_swap_product_strictly_grows
                (10 * 10 ^ 18) (100 * 10 ^ 18) (200 * 10 ^ 18) 18132217877602982631
                eq_refl eq_refl eq_refl eq_refl) as (H1 & H2 & _).
  exact (conj H1 H2).
Defined.

Lemma sqrt_loop_eq (y x z : N) :
  sqrt_loop y x z =
  if decide (x < z) then
    match sqrt_step y x with
    | Ok x' => sqrt_loop y x' x
    | Err e => Err e
    end
  else Ok z.
Proof.
  simp sqrt_loop. destruct (decide (x < z)) as [Hlt|Hge]; simpl.
  - destruct (sqrt_step y x); reflexivity.
  - reflexivity.
Qed.

Lemma div_add_le (y x : N) : 2 <= x -> x < y -> y / x + x <= y.
Proof.
  intros H2 Hlt.
  destruct (N.eq_dec x (y - 1)) as [->|Hne].
  - assert (y / (y - 1) < 2) by (apply N.Div0.div_lt_upper_bound; lia). lia.
  - assert (y / x <= y - x); [|lia].
    apply N.Div0.div_le_upper_bound. nia.
Qed.

Lemma newton_lower (y x : N) : 0 < x -> N.sqrt y <= (y / x + x) / 2.
Proof.
  intros Hx.
  pose proof (N.sqrt_spec y) as [Hs _]; [lia|].
  set (s := N.sqrt y) in *.
  apply N.div_le_lower_bound; [lia|].
  assert (2 * s - x <= y / x); [|lia].
  apply N.div_le_lower_bound; [lia|].
  destruct (N.le_gt_cases x (2 * s)); [|nia].
  assert (exists d, 2 * s = x + d) as [d Hd] by (exists (2 * s - x); lia).
  replace (2 * s - x) with d by lia.
  assert (4 * (x * d) <= (x + d) * (x + d)).
  { destruct (N.le_ge_cases x d) as [Hxd|Hxd].
    - assert (exists e, d = x + e) as [e ->] by (exists (d - x); lia). nia.
    - assert (exists e, x = d + e) as [e ->] by (exists (x - d); lia). nia. }
  nia.
Qed.

Lemma sqrt_loop_correct (y : N) :
  4 <= y -> y <= MAX_UINT256 ->
  forall z x,
    N.sqrt y <= x -> N.sqrt y <= z -> z <= y -> (z <= x -> z * z <= y) ->
    sqrt_loop y x z = Ok (N.sqrt y).
Proof.
  intros H4 Hmax z.
  induction z as [z IH] using (well_founded_induction N.lt_wf_0).
  intros x Hx Hz Hzy Hexit.
  assert (2 <= N.sqrt y) as Hs2.
  { apply N.sqrt_le_square. lia. }
  rewrite sqrt_loop_eq.
  destruct (decide (x < z)) as [Hlt|Hge].
  - assert (sqrt_step y x = Ok ((y / x + x) / 2)) as ->.
    { unfold sqrt_step, checked_div, checked_add. simpl.
      destruct (N.eqb_spec x 0); [lia|]. simpl.
      pose proof (div_add_le y x ltac:(lia) ltac:(lia)).
      destruct (N.leb_spec (y / x + x) MAX_UINT256); [|lia]. reflexivity. }
    apply IH; try lia.
    + apply newton_lower. lia.
    + intros Hxx.
      assert (2 * x <= y / x + x).
      { pose proof (N.Div0.mul_div_le (y / x + x) 2). lia. }
      assert (x <= y / x) by lia.
      pose proof (N.Div0.mul_div_le y x). nia.
  - f_equal. apply N.le_antisymm; [|lia].
    apply N.sqrt_le_square. apply Hexit. lia.
Qed.

Lemma _sqrt_floor (y : N) : y <= MAX_UINT256 -> _sqrt y = Ok (N.sqrt y).
Proof.
  intros Hmax. unfold _sqrt.
  destruct (N.ltb_spec 3 y) as [H3|H3].
  - unfold checked_div, checked_add. simpl.
    assert (y / 2 + 1 <= y).
    { pose proof (N.Div0.mul_div_le y 2). lia. }
    destruct (N.leb_spec (y / 2 + 1) MAX_UINT256); [|lia]. simpl.
    apply sqrt_loop_correct; try lia.
    + pose proof (N.sqrt_spec y ltac:(lia)) as [Hs _].
      pose proof (N.mod_lt y 2 ltac:(lia)). pose proof (N.div_mod y 2 ltac:(lia)).
      destruct (N.le_gt_cases (N.sqrt y) (y / 2 + 1)); [assumption|nia].
    + apply N.sqrt_le_lin.
    + intros Hle. pose proof (N.Div0.mul_div_le y 2).
      assert (y < 2 * (y / 2) + 2). { pose proof (N.mod_lt y 2). pose proof (N.div_mod y 2). lia. }
      lia.
  - destruct (N.eqb_spec y 0) as [->|Hne]; simpl; [reflexivity|].
    f_equal. symmetry. apply N.sqrt_unique. lia.
Qed.

Lemma _min_min (a b : N) : _min a b = N.min a b.
Proof. unfold _min. destruct (N.ltb_spec a b); lia. Qed.

Lemma _quote_eval (amountA _reserveA _reserveB : N) :
  0 < amountA → 0 < _reserveA → 0 < _reserveB →
  amountA * _reserveB ≤ MAX_UINT256 →
  _quote amountA _reserveA _reserveB = Ok (amountA * _reserveB / _reserveA).
Proof.
  intros Ha HA HB Hfits. unfold _quote.
  rewrite (proj2 (N.ltb_lt _ _) Ha), (proj2 (N.ltb_lt _ _) HA), (proj2 (N.ltb_lt _ _) HB).
  cbn [andb]. rewrite !require_true, !bind_Ok_l.
  rewrite checked_mul_fits by assumption. rewrite bind_Ok_l.
  apply checked_div_pos. assumption.
Qed.

Lemma _quote_Ok (amountA _reserveA _reserveB amountB : N) :
  _quote amountA _reserveA _reserveB = Ok amountB →
  0 < amountA ∧ 0 < _reserveA ∧ 0 < _reserveB
  ∧ amountA * _reserveB ≤ MAX_UINT256
  ∧ amountB = amountA * _reserveB / _reserveA.
Proof.
  unfold _quote. intros H.
  apply bind_Ok in H as (u1 & H1 & H). apply require_Ok, N.ltb_lt in H1.
  apply bind_Ok in H as (u2 & H2 & H). apply require_Ok, andb_prop in H2 as [HA HB].
  apply N.ltb_lt in HA, HB.
  apply bind_Ok in H as (p & Hp & H). apply checked_mul_Ok in Hp as [-> Hfits].
  apply checked_div_Ok in H as [-> _]. auto.
Qed.

Lemma share_eval (amount supply reserve : N) :
  0 < reserve → amount * supply ≤ MAX_UINT256 →
  (p ← checked_mul amount supply; checked_div p reserve) = Ok (amount * supply / reserve).
Proof.
  intros Hr Hfits. rewrite checked_mul_fits by assumption. rewrite bind_Ok_l.
  apply checked_div_pos. assumption.
Qed.

Lemma share_zero (amount reserve : N) :
  0 < reserve → (p ← checked_mul amount 0; checked_div p reserve) = Ok 0.
Proof.
  intros Hr. rewrite share_eval by (try assumption; rewrite N.mul_0_r; apply N.le_0_l).
  rewrite N.mul_0_r. rewrite N.Div0.div_0_l. reflexivity.
Qed.

Lemma share_overflow (amount supply reserve : N) :
  MAX_UINT256 < amount * supply →
  (p ← checked_mul amount supply; checked_div p reserve) = Err (Panic PANIC_OVERFLOW).
Proof. intros H. rewrite checked_mul_overflow by assumption. reflexivity. Qed.

Lemma _quote_overflow (amountA _reserveA _reserveB : N) :
  0 < amountA → 0 < _reserveA → 0 < _reserveB →
  MAX_UINT256 < amountA * _reserveB →
  _quote amountA _reserveA _reserveB = Err (Panic PANIC_OVERFLOW).
Proof.
  intros Ha HA HB Hover. unfold _quote.
  rewrite (proj2 (N.ltb_lt _ _) Ha), (proj2 (N.ltb_lt _ _) HA), (proj2 (N.ltb_lt _ _) HB).
  cbn [andb]. rewrite !require_true, !bind_Ok_l.
  rewrite checked_mul_overflow by assumption. reflexivity.
Qed.

(** The deposit into a funded pool follows the rule whenever no amount it
    quotes is zero and no product it forms overflows. *)
Lemma addLiquidity_amounts_rule (_reserveA _reserveB supply : N)
    (amountADesired amountBDesired amountAMin amountBMin : N) :
  0 < _reserveA → 0 < _reserveB →
  0 < amountADesired →
  (amountBDesired = 0 → amountADesired * _reserveB / _reserveA = 0) →
  deposit_overflows _reserveA _reserveB supply
    amountADesired amountBDesired amountAMin amountBMin = false →
  addLiquidity_amounts _reserveA _reserveB supply
    amountADesired amountBDesired amountAMin amountBMin
  = spec_deposit _reserveA _reserveB supply
      amountADesired amountBDesired amountAMin amountBMin.
Proof.
  intros HA HB Ha Hzero Hfits.
  unfold deposit_overflows in Hfits. cbv zeta in Hfits.
  apply orb_false_elim in Hfits as [HfitA Hfits].
  apply N.ltb_ge in HfitA.
  unfold addLiquidity_amounts, spec_deposit.
  destruct (N.eqb_spec _reserveA 0) as [|_]; [lia|]. cbn [andb].
  rewrite (_quote_eval amountADesired) by assumption. rewrite bind_Ok_l.
  destruct (N.leb_spec (amountADesired * _reserveB / _reserveA) amountBDesired) as [Hle|Hgt].
  - destruct (N.leb_spec amountBMin (amountADesired * _reserveB / _reserveA));
      [|reflexivity].
    cbn [andb] in Hfits. apply orb_false_elim in Hfits as [HsA HsB].
    apply N.ltb_ge in HsA, HsB.
    rewrite require_true, !bind_Ok_l.
    rewrite (share_eval amountADesired supply _reserveA) by assumption. rewrite bind_Ok_l.
    rewrite (share_eval _ supply _reserveB) by assumption. rewrite bind_Ok_l.
    rewrite _min_min.
    destruct (N.eqb_spec (N.min (amountADesired * supply / _reserveA)
                (amountADesired * _reserveB / _reserveA * supply / _reserveB)) 0) as [Hz|Hz].
    + rewrite Hz. reflexivity.
    + rewrite bind_Ok_l. cbv beta iota.
      rewrite (proj2 (N.ltb_lt 0 _)) by (apply N.neq_0_lt_0; exact Hz). reflexivity.
  - apply orb_false_elim in Hfits as [HfitB Hfits]. apply N.ltb_ge in HfitB.
    assert (0 < amountBDesired) as Hb.
    { apply N.neq_0_lt_0. intros H0. apply Hzero in H0. lia. }
    rewrite _quote_eval by assumption. rewrite bind_Ok_l.
    destruct ((amountBDesired * _reserveA / _reserveB <=? amountADesired)
              && (amountAMin <=? amountBDesired * _reserveA / _reserveB)) eqn:Hreq;
      [|reflexivity].
    cbn [andb] in Hfits. apply orb_false_elim in Hfits as [HsA HsB].
    apply N.ltb_ge in HsA, HsB.
    rewrite require_true, !bind_Ok_l.
    rewrite (share_eval _ supply _reserveA) by assumption. rewrite bind_Ok_l.
    rewrite (share_eval amountBDesired supply _reserveB) by assumption. rewrite bind_Ok_l.
    rewrite _min_min.
    destruct (N.eqb_spec (N.min (amountBDesired * _reserveA / _reserveB * supply / _reserveA)
                (amountBDesired * supply / _reserveB)) 0) as [Hz|Hz].
    + rewrite Hz. reflexivity.
    + rewrite bind_Ok_l. cbv beta iota.
      rewrite (proj2 (N.ltb_lt 0 _)) by (apply N.neq_0_lt_0; exact Hz). reflexivity.
Qed.

(** A product that overflows stops the deposit with the arithmetic
    failure. *)
Lemma addLiquidity_amounts_overflow (_reserveA _reserveB supply : N)
    (amountADesired amountBDesired amountAMin amountBMin : N) :
  0 < _reserveA → 0 < _reserveB →
  deposit_overflows _reserveA _reserveB supply
    amountADesired amountBDesired amountAMin amountBMin = true →
  addLiquidity_amounts _reserveA _reserveB supply
    amountADesired amountBDesired amountAMin amountBMin
  = Err (Panic PANIC_OVERFLOW).
Proof.
  intros HA HB Hover.
  unfold deposit_overflows in Hover. cbv zeta in Hover.
  unfold addLiquidity_amounts.
  destruct (N.eqb_spec _reserveA 0) as [|_]; [lia|]. cbn [andb].
  destruct (N.ltb_spec MAX_UINT256 (amountADesired * _reserveB)) as [HoverA|HfitA].
  - assert (0 < amountADesired) as Ha.
    { apply N.neq_0_lt_0. intros ->. change (0 * _reserveB) with 0 in HoverA.
      unfold MAX_UINT256 in HoverA. lia. }
    rewrite (_quote_overflow amountADesired) by assumption. reflexivity.
  - cbn [orb] in Hover.
    destruct (N.eq_dec amountADesired 0) as [->|Ha].
    { exfalso. change (0 * _reserveB) with 0 in Hover. rewrite N.Div0.div_0_l in Hover.
      rewrite (proj2 (N.leb_le 0 amountBDesired) (N.le_0_l _)) in Hover.
      change (0 * supply) with 0 in Hover.
      replace (MAX_UINT256 <? 0) with false in Hover by reflexivity.
      cbn [orb] in Hover. rewrite andb_false_r in Hover. discriminate. }
    apply N.neq_0_lt_0 in Ha.
    rewrite (_quote_eval amountADesired) by assumption. rewrite bind_Ok_l.
    destruct (N.leb_spec (amountADesired * _reserveB / _reserveA) amountBDesired) as [Hle|Hgt].
    + apply andb_prop in Hover as [Hmin Hover].
      rewrite Hmin, require_true, !bind_Ok_l.
      destruct (N.ltb_spec MAX_UINT256 (amountADesired * supply)) as [HoA|HfA].
      * rewrite (share_overflow amountADesired) by assumption. reflexivity.
      * cbn [orb] in Hover. apply N.ltb_lt in Hover.
        rewrite (share_eval amountADesired supply _reserveA) by assumption.
        rewrite bind_Ok_l.
        rewrite (share_overflow _ supply _reserveB) by assumption. reflexivity.
    + destruct (N.ltb_spec MAX_UINT256 (amountBDesired * _reserveA)) as [HoverB|HfitB].
      * assert (0 < amountBDesired) as Hb.
        { apply N.neq_0_lt_0. intros ->. change (0 * _reserveA) with 0 in HoverB.
          unfold MAX_UINT256 in HoverB. lia. }
        rewrite (_quote_overflow amountBDesired) by assumption. reflexivity.
      * cbn [orb] in Hover.
        apply andb_prop in Hover as [Hreq Hover].
        destruct (N.eq_dec amountBDesired 0) as [->|Hb].
        { exfalso. change (0 * _reserveA) with 0 in Hover. rewrite N.Div0.div_0_l in Hover.
          change (0 * supply) with 0 in Hover.
          replace (MAX_UINT256 <? 0) with false in Hover by reflexivity.
          discriminate. }
        apply N.neq_0_lt_0 in Hb.
        rewrite _quote_eval by assumption. rewrite bind_Ok_l.
        rewrite Hreq, require_true, !bind_Ok_l.
        destruct (N.ltb_spec MAX_UINT256 (amountBDesired * _reserveA / _reserveB * supply))
          as [HoA|HfA].
        -- rewrite (share_overflow _ supply _reserveA) by assumption. reflexivity.
        -- cbn [orb] in Hover. apply N.ltb_lt in Hover.
           rewrite (share_eval _ supply _reserveA) by assumption. rewrite bind_Ok_l.
           rewrite (share_overflow amountBDesired supply _reserveB) by assumption.
           reflexivity.
Qed.

(** A zero amount stops the deposit inside [_quote]. *)
Lemma addLiquidity_amounts_zero_second (_reserveA _reserveB supply : N)
    (amountADesired amountAMin amountBMin : N) :
  0 < _reserveA → 0 < _reserveB →
  amountADesired * _reserveB ≤ MAX_UINT256 →
  0 < amountADesired * _reserveB / _reserveA →
  addLiquidity_amounts _reserveA _reserveB supply amountADesired 0 amountAMin amountBMin
  = Err (Revert "Insufficient amount").
Proof.
  intros HA HB Hfit Hpos. unfold addLiquidity_amounts.
  destruct (N.eqb_spec _reserveA 0) as [|_]; [lia|]. cbn [andb].
  assert (0 < amountADesired) as Ha.
  { apply N.neq_0_lt_0. intros ->. change (0 * _reserveB) with 0 in Hpos.
    rewrite N.Div0.div_0_l in Hpos. lia. }
  rewrite (_quote_eval amountADesired) by assumption. rewrite bind_Ok_l.
  destruct (N.leb_spec (amountADesired * _reserveB / _reserveA) 0); [lia|].
  reflexivity.
Qed.

Lemma addLiquidity_amounts_zero_desired (_reserveA _reserveB supply : N)
    (amountBDesired amountAMin amountBMin : N) :
  0 < _reserveA →
  addLiquidity_amounts _reserveA _reserveB supply 0 amountBDesired amountAMin amountBMin
  = Err (Revert "Insufficient amount").
Proof.
  intros HA. unfold addLiquidity_amounts.
  destruct (N.eqb_spec _reserveA 0) as [|_]; [lia|]. reflexivity.
Qed.

(** With no share outstanding and a balance on the pool, no deposit goes
    through. *)
Lemma addLiquidity_amounts_no_shares (_reserveA _reserveB : N)
    (amountADesired amountBDesired amountAMin amountBMin : N) :
  ¬ (_reserveA = 0 ∧ _reserveB = 0) →
  ∃ e, addLiquidity_amounts _reserveA _reserveB 0
         amountADesired amountBDesired amountAMin amountBMin = Err e.
Proof.
  intros Hdust. unfold addLiquidity_amounts.
  destruct (N.eqb_spec _reserveA 0) as [HA0|HA0];
    [destruct (N.eqb_spec _reserveB 0) as [HB0|HB0]; [tauto|] |]; cbn [andb].
  all: destruct (_quote amountADesired _reserveA _reserveB) as [bOpt|e] eqn:Hq;
    [|eexists; reflexivity].
  all: apply _quote_Ok in Hq as (_ & HA & HB & _ & _).
  all: rewrite bind_Ok_l.
  all: destruct (bOpt <=? amountBDesired).
  all: try (destruct (amountBMin <=? bOpt); [|eexists; reflexivity]).
  all: try (destruct (_quote amountBDesired _reserveB _reserveA) as [aOpt|e];
            [|eexists; reflexivity]; rewrite bind_Ok_l;
            destruct ((aOpt <=? amountADesired) && (amountAMin <=? aOpt));
            [|eexists; reflexivity]).
  all: rewrite ?require_true, ?bind_Ok_l.
  all: rewrite !share_zero by assumption.
  all: rewrite !bind_Ok_l; eexists; reflexivity.
Qed.

Lemma addLiquidity_amounts_first (supply : N)
    (amountADesired amountBDesired amountAMin amountBMin : N) :
  amountADesired * amountBDesired ≤ MAX_UINT256 →
  addLiquidity_amounts 0 0 supply amountADesired amountBDesired amountAMin amountBMin
  = if MINIMUM_LIQUIDITY <? N.sqrt (amountADesired * amountBDesired)
    then Ok (N.sqrt (amountADesired * amountBDesired) - MINIMUM_LIQUIDITY,
             amountADesired, amountBDesired)
    else Err InsufficientInitialLiquidity.
Proof.
  intros Hfits. unfold addLiquidity_amounts. cbn [N.eqb andb].
  rewrite checked_mul_fits by assumption. rewrite bind_Ok_l.
  rewrite _sqrt_floor by assumption. rewrite bind_Ok_l.
  destruct (N.ltb_spec MINIMUM_LIQUIDITY (N.sqrt (amountADesired * amountBDesired))) as [Hgt|Hle];
    [|reflexivity].
  rewrite require_true, bind_Ok_l.
  unfold checked_sub. rewrite (proj2 (N.leb_le _ _)) by lia. rewrite !bind_Ok_l.
  rewrite (proj2 (N.ltb_lt 0 _)) by lia. reflexivity.
Qed.

(** ** Withdrawals *)

Lemma removeLiquidity_amounts_eval (_reserveA _reserveB _totalSupply : N)
    (liquidity amountAMin amountBMin : N) :
  0 < _totalSupply →
  liquidity * _reserveA ≤ MAX_UINT256 → liquidity * _reserveB ≤ MAX_UINT256 →
  removeLiquidity_amounts _reserveA _reserveB _totalSupply liquidity amountAMin amountBMin
  = let amountA := liquidity * _reserveA / _totalSupply in
    let amountB := liquidity * _reserveB / _totalSupply in
    if (0 <? amountA) && (0 <? amountB) then
      if (amountAMin <=? amountA) && (amountBMin <=? amountB) then Ok (amountA, amountB)
      else Err SlippageExceeded
    else Err InsufficientBurnAmount.
Proof.
  intros HT HfA HfB. unfold removeLiquidity_amounts. cbv zeta.
  rewrite !share_eval by assumption. rewrite !bind_Ok_l.
  destruct ((0 <? liquidity * _reserveA / _totalSupply)
            && (0 <? liquidity * _reserveB / _totalSupply)); [|reflexivity].
  rewrite require_true, bind_Ok_l.
  destruct ((amountAMin <=? liquidity * _reserveA / _totalSupply)
            && (amountBMin <=? liquidity * _reserveB / _totalSupply)); reflexivity.
Qed.

Lemma removeLiquidity_amounts_overflow (_reserveA _reserveB _totalSupply : N)
    (liquidity amountAMin amountBMin : N) :
  0 < _totalSupply →
  MAX_UINT256 < liquidity * _reserveA ∨ MAX_UINT256 < liquidity * _reserveB →
  removeLiquidity_amounts _reserveA _reserveB _totalSupply liquidity amountAMin amountBMin
  = Err (Panic PANIC_OVERFLOW).
Proof.
  intros HT Hover. unfold removeLiquidity_amounts.
  destruct (N.le_gt_cases (liquidity * _reserveA) MAX_UINT256) as [HfA|HoA].
  - destruct Hover as [HoA|HoB]; [lia|].
    rewrite (share_eval liquidity _reserveA) by assumption. rewrite bind_Ok_l.
    rewrite (share_overflow liquidity _reserveB) by assumption. reflexivity.
  - rewrite (share_overflow liquidity _reserveA) by assumption. reflexivity.
Qed.

Lemma removeLiquidity_amounts_Ok (_reserveA _reserveB _totalSupply : N)
    (liquidity amountAMin amountBMin amountA amountB : N) :
  removeLiquidity_amounts _reserveA _reserveB _totalSupply liquidity amountAMin amountBMin
  = Ok (amountA, amountB) →
  amountA = liquidity * _reserveA / _totalSupply
  ∧ amountB = liquidity * _reserveB / _totalSupply
  ∧ 0 < amountA ∧ 0 < amountB ∧ amountAMin ≤ amountA ∧ amountBMin ≤ amountB.
Proof.
  unfold removeLiquidity_amounts. intros H.
  apply bind_Ok in H as (a & Ha & H).
  apply bind_Ok in Ha as (pa & Hpa & Ha).
  apply checked_mul_Ok in Hpa as [-> _]. apply checked_div_Ok in Ha as [-> _].
  apply bind_Ok in H as (b & Hb & H).
  apply bind_Ok in Hb as (pb & Hpb & Hb).
  apply checked_mul_Ok in Hpb as [-> _]. apply checked_div_Ok in Hb as [-> _].
  apply bind_Ok in H as (u1 & H1 & H). apply require_Ok, andb_prop in H1 as [H1a H1b].
  apply bind_Ok in H as (u2 & H2 & H). apply require_Ok, andb_prop in H2 as [H2a H2b].
  injection H as <- <-.
  apply N.ltb_lt in H1a, H1b. apply N.leb_le in H2a, H2b.
  repeat split; assumption.
Qed.

Lemma removeLiquidity_amounts_no_shares (_reserveA _reserveB : N)
    (liquidity amountAMin amountBMin : N) :
  removeLiquidity_amounts _reserveA _reserveB 0 liquidity amountAMin amountBMin
  = Err (Panic (if liquidity * _reserveA <=? MAX_UINT256
                then PANIC_DIV_BY_ZERO else PANIC_OVERFLOW)).
Proof.
  unfold removeLiquidity_amounts, checked_mul.
  destruct (liquidity * _reserveA <=? MAX_UINT256); reflexivity.
Qed.

Lemma addLiquidity_succeeds (reenter : N → Callback → World → Result World)
    (sender amountADesired amountBDesired amountAMin amountBMin : N) (w : World)
    (liquidity amountA amountB : N) :
  entered w = false →
  hooks (tokenA w) = [] → hooks (tokenB w) = [] →
  this w ≠ 0 → sender ≠ 0 →
  addLiquidity_amounts (balanceOf (tokenA w) (this w)) (balanceOf (tokenB w) (this w))
    (totalSupply w) amountADesired amountBDesired amountAMin amountBMin
  = Ok (liquidity, amountA, amountB) →
  amountA ≤ allowance (tokenA w) sender (this w) →
  amountA ≤ balanceOf (tokenA w) sender →
  amountB ≤ allowance (tokenB w) sender (this w) →
  amountB ≤ balanceOf (tokenB w) sender →
  totalSupply w + liquidity ≤ MAX_UINT256 →
  ∃ w', addLiquidity reenter sender amountADesired amountBDesired amountAMin amountBMin w
        = Ok (liquidity, w').
Proof.
  intros He HhA HhB Hthis Hsender Hamounts HallowA HbalA HallowB HbalB Hsupply.
  unfold addLiquidity, nonReentrant. rewrite He. cbv beta zeta.
  change (reserveA (_update (set_entered true w))) with (balanceOf (tokenA w) (this w)).
  change (reserveB (_update (set_entered true w))) with (balanceOf (tokenB w) (this w)).
  change (totalSupply (_update (set_entered true w))) with (totalSupply w).
  rewrite Hamounts. rewrite bind_Ok_l. cbv beta iota.
  destruct (safeTransferFrom_plain reenter SideA sender amountA (_update (set_entered true w)))
    as (tA & HhA' & ->); try assumption.
  rewrite bind_Ok_l.
  destruct (safeTransferFrom_plain reenter SideB sender amountB
              (set_token SideA tA (_update (set_entered true w))))
    as (tB & HhB' & ->); try assumption.
  rewrite bind_Ok_l. cbv zeta.
  unfold _mint. destruct (N.eqb_spec sender 0); [contradiction|].
  rewrite checked_add_fits by exact Hsupply.
  rewrite !bind_Ok_l. eexists. reflexivity.
Qed.

Lemma removeLiquidity_succeeds (reenter : N → Callback → World → Result World)
    (sender liquidity amountAMin amountBMin to : N) (w : World) (amountA amountB : N) :
  entered w = false →
  hooks (tokenA w) = [] → hooks (tokenB w) = [] →
  this w ≠ 0 → sender ≠ 0 → to ≠ 0 →
  removeLiquidity_amounts (balanceOf (tokenA w) (this w)) (balanceOf (tokenB w) (this w))
    (totalSupply w) liquidity amountAMin amountBMin = Ok (amountA, amountB) →
  liquidity ≤ lpBalanceOf w sender →
  amountA ≤ balanceOf (tokenA w) (this w) →
  amountB ≤ balanceOf (tokenB w) (this w) →
  ∃ w', removeLiquidity reenter sender liquidity amountAMin amountBMin to w
        = Ok (amountA, amountB, w').
Proof.
  intros He HhA HhB Hthis Hsender Hto Hamounts Hshares HbalA HbalB.
  unfold removeLiquidity, nonReentrant. rewrite He. cbv beta zeta.
  change (reserveA (_update (set_entered true w))) with (balanceOf (tokenA w) (this w)).
  change (reserveB (_update (set_entered true w))) with (balanceOf (tokenB w) (this w)).
  change (totalSupply (_update (set_entered true w))) with (totalSupply w).
  rewrite Hamounts. rewrite bind_Ok_l. cbv beta iota.
  unfold _burn. destruct (N.eqb_spec sender 0); [contradiction|].
  change (lpBalanceOf (_update (set_entered true w)) sender) with (lpBalanceOf w sender).
  destruct (N.ltb_spec (lpBalanceOf w sender) liquidity); [lia|].
  rewrite bind_Ok_l.
  match goal with |- context [safeTransfer reenter SideA to amountA ?w1] =>
    destruct (safeTransfer_plain reenter SideA to amountA w1) as (tA & _ & ->);
      try assumption
  end.
  rewrite bind_Ok_l.
  match goal with |- context [safeTransfer reenter SideB to amountB ?w1] =>
    destruct (safeTransfer_plain reenter SideB to amountB w1) as (tB & _ & ->);
      try assumption
  end.
  rewrite bind_Ok_l. eexists. reflexivity.
Qed.

Lemma lpBalanceOf_insert (w : World) (b : gmap N N) (account : N) (v : N) :
  lpBalances w = <[account := v]> b → lpBalanceOf w account = v.
Proof. unfold lpBalanceOf. intros ->. rewrite lookup_insert_eq. reflexivity. Qed.

(** C3. On a pool without shares that holds one unit of each token (sent
    to it directly), the first deposit [addLiquidity(2000, 2000, 0, 0)] does
    not mint floor(sqrt(2000 * 2000)) - 1000 = 1000 shares: it reverts with
    "Insufficient liquidity minted", because the first-deposit branch is
    taken on zero reserves and not on a zero share supply. *)
Theorem C3_first_deposit_after_donation_reverts :
  totalSupply donated_pool = 0
  ∧ balanceOf (tokenA donated_pool) (this donated_pool) = 1
  ∧ balanceOf (tokenB donated_pool) (this donated_pool) = 1
  ∧ N.sqrt (2000 * 2000) - MINIMUM_LIQUIDITY = 1000
  ∧ transact (addLiquidity (reenter_at 1) alice 2000 2000 0 0) donated_pool
    = (Err NoLiquidityMinted, donated_pool).
Proof. repeat apply conj; vm_compute; reflexivity. Qed.

(** X15. With no share outstanding and a balance of either token on the
    pool, every deposit reverts. *)
Lemma first_deposit_blocked (reenter : N → Callback → World → Result World)
    (sender amountADesired amountBDesired amountAMin amountBMin : N) (w : World) :
  totalSupply w = 0 →
  ¬ (balanceOf (tokenA w) (this w) = 0 ∧ balanceOf (tokenB w) (this w) = 0) →
  ∃ e, addLiquidity reenter sender amountADesired amountBDesired amountAMin amountBMin w
       = Err e.
Proof.
  intros Hsupply Hdust.
  destruct (entered w) eqn:He.
  - eexists. unfold addLiquidity. apply nonReentrant_entered. assumption.
  - destruct (addLiquidity_amounts_no_shares _ _ amountADesired amountBDesired
                amountAMin amountBMin Hdust) as (e & Hamounts).
    exists e. apply addLiquidity_Err; [assumption|]. rewrite Hsupply. exact Hamounts.
Qed.

(** X14. On a pool whose two balances are zero the first-deposit formula
    holds; the caller's share balance grows by what was minted when nobody
    held a share before, or when the transfer logic of the tokens calls no
    share function of the pool. *)
Lemma first_deposit_empty_pool (depth : nat)
    (sender amountADesired amountBDesired amountAMin amountBMin : N) (w : World) :
  entered w = false →
  balanceOf (tokenA w) (this w) = 0 → balanceOf (tokenB w) (this w) = 0 →
  amountADesired * amountBDesired ≤ MAX_UINT256 →
  (N.sqrt (amountADesired * amountBDesired) ≤ MINIMUM_LIQUIDITY →
   addLiquidity (reenter_at depth) sender
     amountADesired amountBDesired amountAMin amountBMin w
   = Err InsufficientInitialLiquidity)
  ∧ (∀ liquidity w',
       addLiquidity (reenter_at depth) sender
         amountADesired amountBDesired amountAMin amountBMin w = Ok (liquidity, w') →
       liquidity = N.sqrt (amountADesired * amountBDesired) - MINIMUM_LIQUIDITY
       ∧ (no_shares w
          ∨ (no_share_calls (tokenA w) = true ∧ no_share_calls (tokenB w) = true) →
          lpBalanceOf w' sender = lpBalanceOf w sender + liquidity)
       ∧ totalSupply w' = totalSupply w + liquidity).
Proof.
  intros He HA HB Hfits.
  pose proof (addLiquidity_amounts_first (totalSupply w) amountADesired amountBDesired
                amountAMin amountBMin Hfits) as Heval.
  split.
  - intros Hle. apply addLiquidity_Err; [assumption|]. rewrite HA, HB, Heval.
    destruct (N.ltb_spec MINIMUM_LIQUIDITY (N.sqrt (amountADesired * amountBDesired)));
      [lia | reflexivity].
  - intros liquidity w' Hadd.
    apply addLiquidity_Ok in Hadd
      as (_ & a & b & tA1 & tA2 & tB1 & tB2 & Hamounts & _ & _ & _ & _ & _ & _ & _ & _ & _
          & _ & _ & Hsupply & Hlp & _).
    rewrite HA, HB, Heval in Hamounts.
    destruct (MINIMUM_LIQUIDITY <? N.sqrt (amountADesired * amountBDesired));
      [|discriminate].
    injection Hamounts as <- <- <-.
    split; [reflexivity|]. split; [|assumption].
    destruct Hlp as [Hquiet Hnone]. intros [Hn|Hq].
    + rewrite (Hnone Hn sender), (Hn sender).
      destruct (decide (sender = sender)); [reflexivity | congruence].
    + eapply lpBalanceOf_insert. exact (Hquiet Hq).
Qed.

(** C4 fails as stated. On the funded pool, [addLiquidity(0, 5, 0, 0)]
    reverts with "Insufficient amount" inside [_quote], where the stated
    rule computes [amountBOptimal = 0], mints [min(0, 0) = 0] and so fails
    with "Insufficient liquidity minted". And on the pool whose reserves are
    [(2^20, 2^180)], [addLiquidity(2^80, 2^240, 0, 0)] fails with the
    arithmetic overflow [Panic(0x11)] on [amountADesired * reserveB], where
    the stated rule pulls [(2^80, 2^240)] and mints. *)
Lemma C4_rule_counterexample :
  (0 < totalSupply funded_pool
   ∧ 0 < balanceOf (tokenA funded_pool) (this funded_pool)
   ∧ 0 < balanceOf (tokenB funded_pool) (this funded_pool)
   ∧ spec_deposit (balanceOf (tokenA funded_pool) (this funded_pool))
       (balanceOf (tokenB funded_pool) (this funded_pool))
       (totalSupply funded_pool) 0 5 0 0 = Err NoLiquidityMinted
   ∧ transact (addLiquidity (reenter_at 1) alice 0 5 0 0) funded_pool
     = (Err (Revert "Insufficient amount"), funded_pool))
  ∧ (0 < totalSupply lopsided_pool
     ∧ balanceOf (tokenA lopsided_pool) (this lopsided_pool) = 2 ^ 20
     ∧ balanceOf (tokenB lopsided_pool) (this lopsided_pool) = 2 ^ 180
     ∧ spec_deposit (2 ^ 20) (2 ^ 180) (totalSupply lopsided_pool) (2 ^ 80) (2 ^ 240) 0 0
       = Ok (1461501637330902918203684831563361515049085566976, 2 ^ 80, 2 ^ 240)
     ∧ 2 ^ 80 ≤ balanceOf (tokenA lopsided_pool) alice
     ∧ 2 ^ 240 ≤ balanceOf (tokenB lopsided_pool) alice
     ∧ transact (addLiquidity (reenter_at 1) alice (2 ^ 80) (2 ^ 240) 0 0) lopsided_pool
       = (Err (Panic PANIC_OVERFLOW), lopsided_pool)).
Proof. repeat apply conj; vm_compute; solve [reflexivity | discriminate]. Qed.

(** C4, amended. On a funded pool (shares outstanding, both balances
    positive) [addLiquidity] fails with "Insufficient amount" when
    [amountADesired] is zero, and when [amountBDesired] is zero while
    [amountBOptimal = amountADesired * reserveB / reserveA] is not; it fails
    with the arithmetic overflow [Panic(0x11)] when a product it forms
    exceeds [2^256 - 1]: [amountADesired * reserveB], in the second branch
    [amountBDesired * reserveA], and, once the requirement of the branch
    taken passed, the product of a pulled amount and [totalShares]. In every
    other case it follows the rule: if [amountBOptimal <= amountBDesired] it
    pulls [(amountADesired, amountBOptimal)] and requires
    [amountBOptimal >= amountBMin]; otherwise it computes
    [amountAOptimal = amountBDesired * reserveA / reserveB], pulls
    [(amountAOptimal, amountBDesired)] and requires
    [amountAMin <= amountAOptimal <= amountADesired]; it mints
    [min(amountA * totalShares / reserveA, amountB * totalShares / reserveB)]
    and fails with "Insufficient liquidity minted" if that is zero. What it
    mints is added to the share supply, and to the caller's share balance
    when the transfer logic of the two tokens calls no share function of the
    pool. *)
Theorem C4_deposit_into_funded_pool (depth : nat)
    (sender amountADesired amountBDesired amountAMin amountBMin : N) (w : World) :
  let _reserveA := balanceOf (tokenA w) (this w) in
  let _reserveB := balanceOf (tokenB w) (this w) in
  let supply := totalSupply w in
  let amountBOptimal := amountADesired * _reserveB / _reserveA in
  let overflows :=
    deposit_overflows _reserveA _reserveB supply
      amountADesired amountBDesired amountAMin amountBMin in
  let rule :=
    spec_deposit _reserveA _reserveB supply
      amountADesired amountBDesired amountAMin amountBMin in
  let deposit :=
    addLiquidity (reenter_at depth) sender
      amountADesired amountBDesired amountAMin amountBMin in
  entered w = false →
  0 < supply → 0 < _reserveA → 0 < _reserveB →
  (amountADesired = 0
   ∨ (amountBDesired = 0 ∧ 0 < amountBOptimal
      ∧ amountADesired * _reserveB ≤ MAX_UINT256) →
   deposit w = Err (Revert "Insufficient amount"))
  ∧ (overflows = true → deposit w = Err (Panic PANIC_OVERFLOW))
  ∧ (0 < amountADesired →
     (amountBDesired = 0 → amountBOptimal = 0) →
     overflows = false →
     addLiquidity_amounts _reserveA _reserveB supply
       amountADesired amountBDesired amountAMin amountBMin = rule
     ∧ (∀ e, rule = Err e → deposit w = Err e)
     ∧ (∀ liquidity w',
          deposit w = Ok (liquidity, w') →
          ∃ amountA amountB,
            rule = Ok (liquidity, amountA, amountB)
            ∧ totalSupply w' = supply + liquidity
            ∧ (no_share_calls (tokenA w) = true → no_share_calls (tokenB w) = true →
               lpBalanceOf w' sender = lpBalanceOf w sender + liquidity)
            ∧ (sender ≠ this w →
               balanceOf (tokenA w') (this w') = _reserveA + amountA
               ∧ balanceOf (tokenB w') (this w') = _reserveB + amountB))
     ∧ (∀ liquidity amountA amountB,
          rule = Ok (liquidity, amountA, amountB) →
          hooks (tokenA w) = [] → hooks (tokenB w) = [] →
          this w ≠ 0 → sender ≠ 0 →
          amountA ≤ allowance (tokenA w) sender (this w) →
          amountA ≤ balanceOf (tokenA w) sender →
          amountB ≤ allowance (tokenB w) sender (this w) →
          amountB ≤ balanceOf (tokenB w) sender →
          supply + liquidity ≤ MAX_UINT256 →
          ∃ w', deposit w = Ok (liquidity, w'))).
Proof.
  intros _reserveA _reserveB supply amountBOptimal overflows rule deposit He HT HA HB.
  split; [|split].
  - intros [->|(-> & Hpos & Hfit)]; apply addLiquidity_Err; try assumption.
    + apply addLiquidity_amounts_zero_desired. exact HA.
    + apply addLiquidity_amounts_zero_second; assumption.
  - intros Hover. apply addLiquidity_Err; [assumption|].
    apply addLiquidity_amounts_overflow; assumption.
  - intros Ha Hzero Hfits.
    pose proof (addLiquidity_amounts_rule _reserveA _reserveB supply
                  amountADesired amountBDesired amountAMin amountBMin
                  HA HB Ha Hzero Hfits) as Heq.
    split; [exact Heq|]. split; [|split].
    + intros e Hspec. apply addLiquidity_Err; [assumption|].
      fold _reserveA _reserveB supply. rewrite Heq. exact Hspec.
    + intros liquidity w' Hadd.
      apply addLiquidity_Ok in Hadd
        as (_ & a & b & tA1 & tA2 & tB1 & tB2 & Hamounts & HspA & HmvA & HspB & HmvB
            & Hthis & HtA & HtB & _ & _ & _ & _ & Hsupply & [Hlp _] & _).
      fold _reserveA _reserveB supply in Hamounts. rewrite Heq in Hamounts.
      exists a, b. split; [exact Hamounts|].
      split; [exact Hsupply|].
      split; [intros QA QB; eapply lpBalanceOf_insert; exact (Hlp (conj QA QB))|].
      intros Hsender. rewrite Hthis, HtA, HtB.
      apply ledger_spend_Ok in HspA as (_ & _ & HbA & _).
      apply ledger_spend_Ok in HspB as (_ & _ & HbB & _).
      apply ledger_move_Ok in HmvA as (_ & _ & _ & _ & _ & _ & HbalA).
      apply ledger_move_Ok in HmvB as (_ & _ & _ & _ & _ & _ & HbalB).
      rewrite HbalA, HbalB.
      repeat (destruct (decide _); try congruence).
      rewrite (balanceOf_ext (tokenA w) tA1), (balanceOf_ext (tokenB w) tB1) by assumption.
      split; reflexivity.
    + intros liquidity amountA amountB Hspec HhA HhB Hthis Hsender.
      intros HallowA HbalA HallowB HbalB Hsupply.
      unfold rule in Hspec. rewrite <- Heq in Hspec.
      eapply addLiquidity_succeeds; eassumption.
Qed.

(** C4 on the funded pool, for a deposit of [(1e18, 2^256 - 1)]: the
    second amount is cut down to [2e18]. *)
Lemma C4_deposit_into_funded_pool_witness :
  addLiquidity_amounts (100 * 10 ^ 18) (200 * 10 ^ 18) 141421356237309503880
    (10 ^ 18) (2 ^ 256 - 1) 0 0
  = Ok (1414213562373095038, 10 ^ 18, 2 * 10 ^ 18).
Proof.
  exact (proj1 (proj2 (proj2
           (C4_deposit_into_funded_pool 1 alice (10 ^ 18) (2 ^ 256 - 1) 0 0 funded_pool
              eq_refl eq_refl eq_refl eq_refl))
           eq_refl
           ltac:(vm_compute; discriminate)
           ltac:(vm_compute; reflexivity))).
Defined.

(** C5 fails as stated. On the pool whose reserves are [(2^20, 2^180)],
    for [shares = 2^79 <= totalShares], the amount of token A computed is
    [floor(2^79 * 2^20 / totalShares) = 0], yet [removeLiquidity] does not
    fail with "Insufficient liquidity burned": it fails with the arithmetic
    overflow [Panic(0x11)] on [shares * reserveB]. And on the funded pool
    whose token B moves [1e18] shares of the caller from inside its
    transfer, a completed [removeLiquidity(1e20, 0, 0, bob)] decreases the
    caller's share balance by [1e20 + 1e18]. *)
Lemma C5_removeLiquidity_counterexample :
  (0 < totalSupply lopsided_pool
   ∧ 2 ^ 79 ≤ totalSupply lopsided_pool
   ∧ 2 ^ 79 * balanceOf (tokenA lopsided_pool) (this lopsided_pool)
     / totalSupply lopsided_pool = 0
   ∧ transact (removeLiquidity (reenter_at 1) alice (2 ^ 79) 0 0 alice) lopsided_pool
     = (Err (Panic PANIC_OVERFLOW), lopsided_pool)
   ∧ Panic PANIC_OVERFLOW ≠ InsufficientBurnAmount)
  ∧ (0 < totalSupply share_hook_pool
     ∧ 10 ^ 20 ≤ totalSupply share_hook_pool
     ∧ ∃ w', removeLiquidity (reenter_at 2) alice (10 ^ 20) 0 0 bob share_hook_pool
             = Ok (70710678118654752940, 141421356237309505880, w')
             ∧ lpBalanceOf w' alice = lpBalanceOf share_hook_pool alice - 10 ^ 20 - 10 ^ 18
             ∧ lpBalanceOf w' alice ≠ lpBalanceOf share_hook_pool alice - 10 ^ 20).
Proof.
  split.
  - repeat apply conj; try (vm_compute; reflexivity); discriminate.
  - split; [vm_compute; reflexivity|]. split; [vm_compute; discriminate|].
    eexists. split; [vm_compute; reflexivity|].
    split; vm_compute; [reflexivity | discriminate].
Qed.

(** C5, amended. On a pool with shares outstanding and for
    [shares <= totalShares], [removeLiquidity] fails with the arithmetic
    overflow [Panic(0x11)] when [shares * reserveA] or [shares * reserveB]
    exceeds [2^256 - 1]. When both products fit, it computes
    [amountA = floor(shares * reserveA / totalShares)] and
    [amountB = floor(shares * reserveB / totalShares)] of the balances the
    ledgers report, fails with "Insufficient liquidity burned" if either is
    zero, and with "Slippage too high" if both are positive and either is
    below its minimum. When it returns, it paid exactly these two amounts to
    the recipient, and the share supply went down by exactly [shares]; the
    caller's share balance went down by exactly [shares] when the transfer
    logic of the two tokens calls no share function of the pool. On ledgers
    without callbacks it does return for a caller who holds the shares. *)
Theorem C5_removeLiquidity_proportional (depth : nat)
    (sender shares amountAMin amountBMin recipient : N) (w : World) :
  let _reserveA := balanceOf (tokenA w) (this w) in
  let _reserveB := balanceOf (tokenB w) (this w) in
  let amountA := shares * _reserveA / totalSupply w in
  let amountB := shares * _reserveB / totalSupply w in
  entered w = false →
  0 < totalSupply w → shares ≤ totalSupply w →
  (MAX_UINT256 < shares * _reserveA ∨ MAX_UINT256 < shares * _reserveB →
   removeLiquidity (reenter_at depth) sender shares amountAMin amountBMin recipient w
   = Err (Panic PANIC_OVERFLOW))
  ∧ (shares * _reserveA ≤ MAX_UINT256 → shares * _reserveB ≤ MAX_UINT256 →
     amountA = 0 ∨ amountB = 0 →
     removeLiquidity (reenter_at depth) sender shares amountAMin amountBMin recipient w
     = Err InsufficientBurnAmount)
  ∧ (shares * _reserveA ≤ MAX_UINT256 → shares * _reserveB ≤ MAX_UINT256 →
     0 < amountA → 0 < amountB →
     amountA < amountAMin ∨ amountB < amountBMin →
     removeLiquidity (reenter_at depth) sender shares amountAMin amountBMin recipient w
     = Err SlippageExceeded)
  ∧ (∀ paidA paidB w',
       removeLiquidity (reenter_at depth) sender shares amountAMin amountBMin recipient w
       = Ok (paidA, paidB, w') →
       paidA = amountA ∧ paidB = amountB
       ∧ shares ≤ lpBalanceOf w sender
       ∧ (no_share_calls (tokenA w) = true → no_share_calls (tokenB w) = true →
          lpBalanceOf w' sender = lpBalanceOf w sender - shares)
       ∧ totalSupply w' = totalSupply w - shares
       ∧ (recipient ≠ this w →
          balanceOf (tokenA w') recipient = balanceOf (tokenA w) recipient + amountA
          ∧ balanceOf (tokenB w') recipient = balanceOf (tokenB w) recipient + amountB
          ∧ balanceOf (tokenA w') (this w') = _reserveA - amountA
          ∧ balanceOf (tokenB w') (this w') = _reserveB - amountB))
  ∧ (hooks (tokenA w) = [] → hooks (tokenB w) = [] →
     this w ≠ 0 → sender ≠ 0 → recipient ≠ 0 →
     shares ≤ lpBalanceOf w sender →
     shares * _reserveA ≤ MAX_UINT256 → shares * _reserveB ≤ MAX_UINT256 →
     0 < amountA → 0 < amountB → amountAMin ≤ amountA → amountBMin ≤ amountB →
     ∃ w', removeLiquidity (reenter_at depth) sender shares
             amountAMin amountBMin recipient w
           = Ok (amountA, amountB, w')).
Proof.
  intros _reserveA _reserveB amountA amountB He HT Hshares.
  assert (∀ amountAMin amountBMin,
            shares * _reserveA ≤ MAX_UINT256 → shares * _reserveB ≤ MAX_UINT256 →
            removeLiquidity_amounts _reserveA _reserveB (totalSupply w)
              shares amountAMin amountBMin
            = if (0 <? amountA) && (0 <? amountB) then
                if (amountAMin <=? amountA) && (amountBMin <=? amountB)
                then Ok (amountA, amountB) else Err SlippageExceeded
              else Err InsufficientBurnAmount) as Heval.
  { intros. apply removeLiquidity_amounts_eval; assumption. }
  split; [|split; [|split; [|split]]].
  - intros Hover. apply removeLiquidity_Err; [assumption|].
    apply removeLiquidity_amounts_overflow; assumption.
  - intros HfA HfB Hzero. apply removeLiquidity_Err; [assumption|].
    fold _reserveA _reserveB. rewrite Heval by assumption.
    destruct (N.ltb_spec 0 amountA); [|reflexivity].
    destruct (N.ltb_spec 0 amountB); [lia | reflexivity].
  - intros HfA HfB HposA HposB Hslip. apply removeLiquidity_Err; [assumption|].
    fold _reserveA _reserveB. rewrite Heval by assumption.
    rewrite (proj2 (N.ltb_lt _ _) HposA), (proj2 (N.ltb_lt _ _) HposB). cbn [andb].
    destruct (N.leb_spec amountAMin amountA); [|reflexivity].
    destruct (N.leb_spec amountBMin amountB); [lia | reflexivity].
  - intros paidA paidB w' Hrem.
    apply removeLiquidity_Ok in Hrem
      as (_ & Hamounts & _ & Hbal & tA2 & tB2 & HmvA & HmvB
          & Hthis & HtA & HtB & _ & _ & Hsupply & Hlp & _).
    apply removeLiquidity_amounts_Ok in Hamounts as (-> & -> & _).
    subst _reserveA _reserveB amountA amountB.
    split; [reflexivity|]. split; [reflexivity|]. split; [assumption|].
    split; [intros QA QB; eapply lpBalanceOf_insert; exact (Hlp QA QB)|].
    split; [exact Hsupply|].
    intros Hrecipient. rewrite Hthis, HtA, HtB.
    apply ledger_move_Ok in HmvA as (_ & _ & _ & _ & _ & _ & HbalA).
    apply ledger_move_Ok in HmvB as (_ & _ & _ & _ & _ & _ & HbalB).
    rewrite !HbalA, !HbalB.
    repeat (destruct (decide _); try congruence).
    repeat split; reflexivity.
  - intros HhA HhB Hthis Hsender Hrecipient Hbal HfA HfB HposA HposB HminA HminB.
    assert (amountA ≤ _reserveA ∧ amountB ≤ _reserveB) as [HleA HleB].
    { split; apply N.Div0.div_le_upper_bound; nia. }
    eapply removeLiquidity_succeeds; try eassumption.
    fold _reserveA _reserveB. rewrite Heval by assumption.
    rewrite (proj2 (N.ltb_lt _ _) HposA), (proj2 (N.ltb_lt _ _) HposB).
    rewrite (proj2 (N.leb_le _ _) HminA), (proj2 (N.leb_le _ _) HminB).
    reflexivity.
Qed.

(** C5 on the funded pool: withdrawing [1e20] shares to another account. *)
Lemma C5_removeLiquidity_proportional_witness :
  ∃ w', removeLiquidity (reenter_at 1) alice (10 ^ 20) 0 0 bob funded_pool
        = Ok (10 ^ 20 * (100 * 10 ^ 18) / 141421356237309503880,
              10 ^ 20 * (200 * 10 ^ 18) / 141421356237309503880, w').
Proof.
  exact (proj2 (proj2 (proj2 (proj2
    (C5_removeLiquidity_proportional 1 alice (10 ^ 20) 0 0 bob funded_pool
       eq_refl eq_refl ltac:(vm_compute; discriminate)))))
    eq_refl eq_refl
    ltac:(vm_compute; discriminate) ltac:(vm_compute; discriminate)
    ltac:(vm_compute; discriminate)
    ltac:(vm_compute; discriminate) ltac:(vm_compute; discriminate)
    ltac:(vm_compute; discriminate)
    eq_refl eq_refl
    ltac:(vm_compute; discriminate) ltac:(vm_compute; discriminate)).
Defined.

(** C9 fails as stated: on a pool without shares that holds two units of
    token A, [removeLiquidity(2^255, 0, 0, _)] fails in the multiplication
    [liquidity * _reserveA], with the overflow panic and not with the
    division-by-zero panic. *)
Lemma C9_overflow_counterexample :
  totalSupply dust_pool = 0
  ∧ balanceOf (tokenA dust_pool) (this dust_pool) = 2
  ∧ transact (removeLiquidity (reenter_at 1) alice (2 ^ 255) 0 0 alice) dust_pool
    = (Err (Panic PANIC_OVERFLOW), dust_pool)
  ∧ PANIC_OVERFLOW ≠ PANIC_DIV_BY_ZERO.
Proof. repeat apply conj; try (vm_compute; reflexivity). discriminate. Qed.

(** C9, amended. On every pool without shares, whatever the balances and
    the arguments, [removeLiquidity] fails with an arithmetic panic and
    never with a named liquidity error, and leaves the state unchanged: the
    panic is division by zero when [shares * reserveA] fits in 256 bits
    (the division by [totalSupply] is not guarded), and overflow
    otherwise. *)
Theorem C9_removeLiquidity_without_shares
    (reenter : N → Callback → World → Result World)
    (sender shares amountAMin amountBMin recipient : N) (w : World) :
  totalSupply w = 0 → entered w = false →
  transact (removeLiquidity reenter sender shares amountAMin amountBMin recipient) w
  = (Err (Panic (if shares * balanceOf (tokenA w) (this w) <=? MAX_UINT256
                 then PANIC_DIV_BY_ZERO else PANIC_OVERFLOW)), w).
Proof.
  intros Hsupply He. unfold transact.
  rewrite (removeLiquidity_Err reenter sender shares amountAMin amountBMin recipient w
             (Panic (if shares * balanceOf (tokenA w) (this w) <=? MAX_UINT256
                     then PANIC_DIV_BY_ZERO else PANIC_OVERFLOW))).
  - reflexivity.
  - assumption.
  - rewrite Hsupply. apply removeLiquidity_amounts_no_shares.
Qed.

(** C9 on the pool that holds two units of token A. *)
Lemma C9_removeLiquidity_without_shares_witness :
  transact (removeLiquidity (reenter_at 1) alice 7 0 0 alice) dust_pool
  = (Err (Panic PANIC_DIV_BY_ZERO), dust_pool).
Proof.
  exact (C9_removeLiquidity_without_shares (reenter_at 1) alice 7 0 0 alice dust_pool
           eq_refl eq_refl).
Defined.

Lemma stale_reserves_ignored (reenter : N → Callback → World → Result World)
    (sender : N) (c : Call) (staleA staleB : N) (w : World) :
  entry reenter sender c (set_reserves staleA staleB w) = entry reenter sender c w.
Proof. destruct c; reflexivity. Qed.

(** C7. After every completed call of [addLiquidity], [removeLiquidity],
    [swapAToB] or [swapBToA] (and of [sync]) the cached reserves are the
    balances the two ledgers report for the pool, and the call does not
    depend on the reserves cached before it: the same call on a state whose
    cached reserves were arbitrary has the same outcome. *)
Theorem C7_reserves_track_balances (depth : nat) (sender : N) (c : Call) (w w' : World) :
  entry (reenter_at depth) sender c w = Ok w' →
  reserves_synced w'
  ∧ ∀ staleA staleB,
      entry (reenter_at depth) sender c (set_reserves staleA staleB w) = Ok w'.
Proof.
  intros H. split.
  - unfold reserves_synced. destruct c; simpl in H.
    + apply bind_Ok in H as ([liq w1] & H & [= <-]).
      apply addLiquidity_Ok in H
        as (_ & a & b & tA1 & tA2 & tB1 & tB2 & _ & _ & _ & _ & _
            & -> & -> & -> & -> & -> & _).
      split; reflexivity.
    + apply bind_Ok in H as ([[a b] w1] & H & [= <-]).
      apply removeLiquidity_Ok in H
        as (_ & _ & _ & _ & tA2 & tB2 & _ & _ & -> & -> & -> & -> & -> & _).
      split; reflexivity.
    + apply bind_Ok in H as ([out w1] & H & [= <-]).
      apply swapAToB_Ok in H
        as (_ & _ & _ & tA1 & tA2 & tB2 & _ & _ & _ & -> & -> & -> & -> & -> & _).
      split; reflexivity.
    + apply bind_Ok in H as ([out w1] & H & [= <-]).
      apply swapBToA_Ok in H
        as (_ & _ & _ & tB1 & tB2 & tA2 & _ & _ & _ & -> & -> & -> & -> & -> & _).
      split; reflexivity.
    + injection H as <-. split; reflexivity.
  - intros staleA staleB. rewrite stale_reserves_ignored. exact H.
Qed.

(** C7 on the pool that was sent tokens directly: its cached reserves are
    stale before the swap and exact after it. *)
Lemma C7_reserves_track_balances_witness :
  reserves_synced swapped_pool ∧ ¬ reserves_synced donated_pool.
Proof.
  split.
  - exact (proj1 (C7_reserves_track_balances 1 alice (CallSwapAToB 1000 0 alice)
                    donated_pool swapped_pool ltac:(vm_compute; reflexivity))).
  - intros [H _]. vm_compute in H. discriminate.
Defined.

(** ** The lock *)

Section Callbacks.

Variables reenter reenter' : N → Callback → World → Result World.

(** The two callbacks agree whenever the guard is set, and the first one
    leaves the guard set. *)
Hypothesis agree : ∀ s c w, entered w = true → reenter s c w = reenter' s c w.
Hypothesis keeps : ∀ s c w w', entered w = true → reenter s c w = Ok w' → entered w' = true.






End Callbacks.

Lemma sort_tokens_comm (a b : N) : sort_tokens a b = sort_tokens b a.
Proof.
  unfold sort_tokens. destruct (N.ltb_spec a b), (N.ltb_spec b a); try reflexivity; try lia.
  f_equal; lia.
Qed.

Lemma sort_tokens_lt (a b : N) : a ≠ b → (sort_tokens a b).1 < (sort_tokens a b).2.
Proof. unfold sort_tokens. destruct (N.ltb_spec a b); simpl; lia. Qed.

Section FactoryFacts.

Variable deployed_at : nat → N.
Hypothesis deployed_nonzero : ∀ n, deployed_at n ≠ 0.

Lemma getPool_sorted (a b : N) (r : Registry) :
  getPool a b r = pools_at r (sort_tokens a b).1 (sort_tokens a b).2.
Proof. unfold getPool, sort_tokens. destruct (a <? b); reflexivity. Qed.

Lemma getPool_comm (a b : N) (r : Registry) : getPool a b r = getPool b a r.
Proof. rewrite !getPool_sorted, (sort_tokens_comm a b). reflexivity. Qed.

Lemma createPool_Ok (a b : N) (r : Registry) (pool : N) (r' : Registry) :
  createPool deployed_at a b r = Ok (pool, r') →
  a ≠ b ∧ a ≠ 0 ∧ b ≠ 0
  ∧ pools_at r (sort_tokens a b).1 (sort_tokens a b).2 = 0
  ∧ pool = deployed_at (length (allPools r))
  ∧ pools r' = <[((sort_tokens a b).2, (sort_tokens a b).1) := pool]>
                 (<[((sort_tokens a b).1, (sort_tokens a b).2) := pool]> (pools r))
  ∧ allPools r' = (allPools r ++ [pool])%list
  ∧ factory_events r' =
      (factory_events r
       ++ [PoolCreated (sort_tokens a b).1 (sort_tokens a b).2 pool
             (N.of_nat (length (allPools r ++ [pool])%list))])%list.
Proof.
  unfold createPool, sort_tokens. intros H.
  apply bind_Ok in H as (u1 & H1 & H). apply require_Ok, negb_true_iff, N.eqb_neq in H1.
  apply bind_Ok in H as (u2 & H2 & H). apply require_Ok, andb_prop in H2 as [Ha Hb].
  apply negb_true_iff, N.eqb_neq in Ha, Hb.
  destruct (a <? b); simpl in *;
    apply bind_Ok in H as (u3 & H3 & H); apply require_Ok, N.eqb_eq in H3;
    injection H as <- <-; simpl; repeat split; assumption.
Qed.

Lemma createPool_exists (a b : N) (r : Registry) :
  a ≠ b → a ≠ 0 → b ≠ 0 →
  pools_at r (sort_tokens a b).1 (sort_tokens a b).2 ≠ 0 →
  createPool deployed_at a b r = Err PoolAlreadyExists.
Proof.
  intros Hab Ha Hb Hset. unfold createPool.
  rewrite (proj2 (N.eqb_neq a b) Hab), (proj2 (N.eqb_neq a 0) Ha),
    (proj2 (N.eqb_neq b 0) Hb).
  simpl. unfold sort_tokens in Hset.
  destruct (a <? b); simpl in *;
    rewrite (proj2 (N.eqb_neq _ 0) Hset); reflexivity.
Qed.

Lemma createPool_fresh (a b : N) (r : Registry) :
  a ≠ b → a ≠ 0 → b ≠ 0 →
  pools_at r (sort_tokens a b).1 (sort_tokens a b).2 = 0 →
  ∃ r', createPool deployed_at a b r = Ok (deployed_at (length (allPools r)), r').
Proof.
  intros Hab Ha Hb Hfree. unfold createPool.
  rewrite (proj2 (N.eqb_neq a b) Hab), (proj2 (N.eqb_neq a 0) Ha),
    (proj2 (N.eqb_neq b 0) Hb).
  simpl. unfold sort_tokens in Hfree.
  destruct (a <? b); simpl in *; rewrite Hfree; simpl; eexists; reflexivity.
Qed.

Lemma pools_at_created (a b : N) (r : Registry) (pool : N) (r' : Registry) (x y : N) :
  createPool deployed_at a b r = Ok (pool, r') →
  pools_at r' x y =
  if decide ((x, y) = ((sort_tokens a b).2, (sort_tokens a b).1)) then pool
  else if decide ((x, y) = ((sort_tokens a b).1, (sort_tokens a b).2)) then pool
  else pools_at r x y.
Proof.
  intros H. apply createPool_Ok in H as (_ & _ & _ & _ & _ & Hpools & _).
  unfold pools_at. rewrite Hpools.
  destruct (decide ((x, y) = ((sort_tokens a b).2, (sort_tokens a b).1))) as [->|H1].
  - rewrite lookup_insert_eq. reflexivity.
  - rewrite lookup_insert_ne by congruence.
    destruct (decide ((x, y) = ((sort_tokens a b).1, (sort_tokens a b).2))) as [->|H2].
    + rewrite lookup_insert_eq. reflexivity.
    + rewrite lookup_insert_ne by congruence. reflexivity.
Qed.

Lemma registry_ok_empty : registry_ok empty_registry.
Proof.
  split; simpl.
  - reflexivity.
  - intros ev Hev. inversion Hev.
  - intros a b H. exfalso. apply H. reflexivity.
  - constructor.
  - reflexivity.
Qed.

Lemma registry_ok_create (a b : N) (r : Registry) (pool : N) (r' : Registry) :
  registry_ok r → createPool deployed_at a b r = Ok (pool, r') → registry_ok r'.
Proof.
  intros Hok Hcreate.
  pose proof (pools_at_created a b r pool r') as Hat.
  specialize (fun x y => Hat x y Hcreate).
  apply createPool_Ok in Hcreate
    as (Hab & Ha & Hb & Hfree & Hpool & _ & Hall & Hevents).
  pose proof (sort_tokens_lt a b Hab) as Hlt.
  assert (pool ≠ 0) as Hnz by (rewrite Hpool; apply deployed_nonzero).
  destruct (sort_tokens a b) as [t0 t1] eqn:Hsort. simpl in *.
  assert (pools_at r t1 t0 = 0) as Hfree' by (rewrite (ok_symmetric r Hok); exact Hfree).
  split.
  - intros x y. rewrite !Hat.
    repeat (destruct (decide _)); try reflexivity; try congruence.
    apply (ok_symmetric r Hok).
  - intros ev Hev. rewrite Hevents in Hev. apply elem_of_app in Hev as [Hev|Hev].
    + destruct (ok_logged r Hok ev Hev) as (H1 & H2 & H3).
      split; [assumption|]. split; [assumption|].
      rewrite Hat.
      destruct (decide _) as [Heq|_]; [injection Heq as Hx Hy; congruence|].
      destruct (decide _) as [Heq|_]; [injection Heq as Hx Hy; congruence|].
      assumption.
    + apply list_elem_of_singleton in Hev as ->. simpl.
      split; [assumption|]. split; [assumption|].
      rewrite Hat.
      destruct (decide _) as [_|_]; [reflexivity|].
      destruct (decide _) as [_|Hne]; [reflexivity | congruence].
  - intros x y Hset. rewrite Hat in Hset |- *. rewrite Hevents.
    destruct (decide ((x, y) = (t1, t0))) as [Heq|Hne1].
    + injection Heq as -> ->. eexists. split; [apply elem_of_app; right; constructor|].
      simpl. split; [|reflexivity]. rewrite sort_tokens_comm.
      unfold sort_tokens. rewrite (proj2 (N.ltb_lt _ _) Hlt). reflexivity.
    + destruct (decide ((x, y) = (t0, t1))) as [Heq|Hne2].
      * injection Heq as -> ->. eexists. split; [apply elem_of_app; right; constructor|].
        simpl. split; [|reflexivity].
        unfold sort_tokens. rewrite (proj2 (N.ltb_lt _ _) Hlt). reflexivity.
      * destruct (ok_stored r Hok x y Hset) as (ev & Hev & Hpair & Hp).
        exists ev. split; [apply elem_of_app; left; assumption|]. auto.
  - rewrite Hevents, fmap_app. apply NoDup_app. split; [apply (ok_unique r Hok)|].
    split; [|apply NoDup_singleton].
    intros p Hp Hin. simpl in Hin. apply list_elem_of_singleton in Hin as ->.
    apply list_elem_of_fmap in Hp as (ev & Hpair & Hev).
    destruct (ok_logged r Hok ev Hev) as (_ & H2 & H3).
    rewrite <- Hpair in H3. simpl in H3. congruence.
  - rewrite Hevents, Hall, !length_app, (ok_count r Hok). reflexivity.
Qed.

Lemma reachable_ok (r : Registry) : reachable deployed_at r → registry_ok r.
Proof.
  induction 1 as [|r a b pool r' _ IH Hcreate].
  - apply registry_ok_empty.
  - eapply registry_ok_create; eassumption.
Qed.

Lemma later_reachable (r r' : Registry) :
  reachable deployed_at r → later deployed_at r r' → reachable deployed_at r'.
Proof.
  intros Hr. induction 1 as [|r1 a b pool r2 _ IH Hcreate].
  - assumption.
  - eapply reachable_create; eassumption.
Qed.

(** An entry of the mapping, once set, is never overwritten. *)
Lemma later_keeps (r r' : Registry) (x y : N) :
  reachable deployed_at r → later deployed_at r r' →
  pools_at r x y ≠ 0 → pools_at r' x y = pools_at r x y.
Proof.
  intros Hr Hlater Hset. induction Hlater as [|r1 a b pool r2 Hl IH Hcreate].
  - reflexivity.
  - pose proof (reachable_ok r1 (later_reachable r r1 Hr Hl)) as Hok.
    rewrite (pools_at_created a b r1 pool r2 x y Hcreate).
    apply createPool_Ok in Hcreate as (_ & _ & _ & Hfree & _).
    destruct (decide _) as [Heq|_].
    + injection Heq as -> ->. rewrite (ok_symmetric r1 Hok) in IH. congruence.
    + destruct (decide _) as [Heq|_]; [|assumption].
      injection Heq as -> ->. congruence.
Qed.

(** C6. In every reachable registry, after a successful
    [createPool(X, Y)] for distinct non-zero tokens, and whatever pools
    are created later, [createPool(X, Y)] and [createPool(Y, X)] fail
    with "Pool exists" and leave the registry unchanged, and
    [getPool(X, Y)] and [getPool(Y, X)] both return the created pool.
    [getPool] is symmetric in every state and returns the zero address
    (none) where nothing was created; no canonical pair was created
    twice, and every pool [getPool] returns was created for that pair. *)
Theorem C6_one_pool_per_pair (tokenX tokenY : N) (r : Registry)
    (pool : N) (r1 r2 : Registry) :
  reachable deployed_at r →
  tokenX ≠ tokenY → tokenX ≠ 0 → tokenY ≠ 0 →
  createPool deployed_at tokenX tokenY r = Ok (pool, r1) →
  later deployed_at r1 r2 →
  pool ≠ 0
  ∧ transact (createPool deployed_at tokenX tokenY) r2 = (Err PoolAlreadyExists, r2)
  ∧ transact (createPool deployed_at tokenY tokenX) r2 = (Err PoolAlreadyExists, r2)
  ∧ getPool tokenX tokenY r2 = pool
  ∧ getPool tokenY tokenX r2 = pool
  ∧ (∀ a b r', getPool a b r' = getPool b a r')
  ∧ (∀ a b, getPool a b empty_registry = 0)
  ∧ NoDup (created_pair <$> factory_events r2)
  ∧ (∀ a b, getPool a b r2 ≠ 0 →
       ∃ ev, ev ∈ factory_events r2 ∧ created_pair ev = sort_tokens a b
             ∧ created_pool ev = getPool a b r2).
Proof.
  intros Hr Hxy Hx Hy Hcreate Hlater.
  assert (reachable deployed_at r1) as Hr1 by (eapply reachable_create; eassumption).
  pose proof (reachable_ok r2 (later_reachable r1 r2 Hr1 Hlater)) as Hok2.
  pose proof (pools_at_created tokenX tokenY r pool r1
                (sort_tokens tokenX tokenY).1 (sort_tokens tokenX tokenY).2 Hcreate) as Hat.
  apply createPool_Ok in Hcreate as Hinv.
  destruct Hinv as (_ & _ & _ & _ & Hpool & _).
  assert (pool ≠ 0) as Hnz by (rewrite Hpool; apply deployed_nonzero).
  assert (pools_at r1 (sort_tokens tokenX tokenY).1 (sort_tokens tokenX tokenY).2 = pool)
    as Hset1.
  { rewrite Hat. destruct (decide _); [reflexivity|].
    destruct (decide _) as [_|Hne]; [reflexivity|]. exfalso. apply Hne.
    reflexivity. }
  assert (pools_at r2 (sort_tokens tokenX tokenY).1 (sort_tokens tokenX tokenY).2 = pool)
    as Hset2.
  { rewrite (later_keeps r1 r2) by (try assumption; congruence). exact Hset1. }
  split; [exact Hnz|].
  split. { unfold transact. rewrite createPool_exists by (try assumption; congruence).
           reflexivity. }
  split. { unfold transact. rewrite createPool_exists;
             [reflexivity | congruence | assumption | assumption |].
           rewrite sort_tokens_comm. congruence. }
  split; [rewrite getPool_sorted; exact Hset2|].
  split; [rewrite getPool_comm, getPool_sorted; exact Hset2|].
  split; [intros; apply getPool_comm|].
  split; [intros a b; rewrite getPool_sorted; reflexivity|].
  split; [apply (ok_unique r2 Hok2)|].
  intros a b Hset. rewrite getPool_sorted in Hset |- *.
  destruct (ok_stored r2 Hok2 _ _ Hset) as (ev & Hev & Hpair & Hp).
  exists ev. split; [assumption|]. split; [|assumption].
  rewrite Hpair. unfold sort_tokens.
  destruct (N.ltb_spec a b); simpl.
  - rewrite (proj2 (N.ltb_lt _ _)); [reflexivity | assumption].
  - destruct (N.ltb_spec b a); simpl; [reflexivity|].
    replace a with b by lia. reflexivity.
Qed.

End FactoryFacts.





(** A withdrawal during which token B re-enters the pool: the nested swap is
    rejected; the withdrawal fails with it, or, if the token swallows the
    failure, pays what it pays without the callback. *)
Example reentrant_withdrawal :
  fst (transact (removeLiquidity (reenter_at 5) alice (10 ^ 20) 0 0 bob) (attacked_pool false))
  = Err ReentrancyGuardReentrantCall
  ∧ fst (transact (removeLiquidity (reenter_at 5) alice (10 ^ 20) 0 0 bob) (attacked_pool true))
    = fst (transact (removeLiquidity (reenter_at 5) alice (10 ^ 20) 0 0 bob) funded_pool)
  ∧ fst (transact (removeLiquidity (reenter_at 5) alice (10 ^ 20) 0 0 bob) funded_pool)
    = Ok (70710678118654752940, 141421356237309505880).
Proof. split; [|split]; vm_compute; reflexivity. Qed.

(** C10. For every 256-bit [y], [_sqrt y] returns the integer square root
    of [y]: the greatest [z] with [z * z <= y], and [0] for [y = 0]. The
    loop is a total function: every iteration replaces [z] by the strictly
    smaller [x], and it stops as soon as [x < z] fails. *)
Theorem C10_sqrt_floor (y : N) :
  y ≤ MAX_UINT256 →
  (∃ z, _sqrt y = Ok z
        ∧ z * z ≤ y
        ∧ (∀ z', z' * z' ≤ y → z' ≤ z)
        ∧ (y = 0 → z = 0))
  ∧ (∀ x z, x < z →
       sqrt_loop y x z = (x' ← sqrt_step y x; sqrt_loop y x' x))
  ∧ (∀ x z, ¬ x < z → sqrt_loop y x z = Ok z).
Proof.
  intros Hmax. split; [|split].
  - exists (N.sqrt y). split; [apply _sqrt_floor; assumption|].
    pose proof (N.sqrt_spec y (N.le_0_l y)) as [Hlo Hhi].
    split; [exact Hlo|]. split.
    + intros z' Hz'. apply N.sqrt_le_square. exact Hz'.
    + intros ->. reflexivity.
  - intros x z Hlt. rewrite sqrt_loop_eq.
    destruct (decide (x < z)); [|contradiction].
    destruct (sqrt_step y x); reflexivity.
  - intros x z Hge. rewrite sqrt_loop_eq.
    destruct (decide (x < z)); [contradiction | reflexivity].
Qed.

(** C10 at the product of the first deposit of section 8. *)
Lemma C10_sqrt_floor_witness :
  ∃ z, _sqrt (100 * 10 ^ 18 * (200 * 10 ^ 18)) = Ok z
       ∧ z * z ≤ 100 * 10 ^ 18 * (200 * 10 ^ 18)
       ∧ (∀ z', z' * z' ≤ 100 * 10 ^ 18 * (200 * 10 ^ 18) → z' ≤ z)
       ∧ (100 * 10 ^ 18 * (200 * 10 ^ 18) = 0 → z = 0).
Proof.
  exact (proj1 (C10_sqrt_floor (100 * 10 ^ 18 * (200 * 10 ^ 18))
                  ltac:(vm_compute; discriminate))).
Defined.

(** C6 for the first pool of a factory. *)
Lemma C6_one_pool_per_pair_witness :
  getPool 3 7 (snd (transact (createPool example_deployed_at 7 3) empty_registry)) = 1000
  ∧ transact (createPool example_deployed_at 3 7)
      (snd (transact (createPool example_deployed_at 7 3) empty_registry))
    = (Err PoolAlreadyExists,
       snd (transact (createPool example_deployed_at 7 3) empty_registry)).
Proof.
  pose proof (C6_one_pool_per_pair example_deployed_at
                ltac:(unfold example_deployed_at; lia)
                7 3 empty_registry 1000
                (snd (transact (createPool example_deployed_at 7 3) empty_registry))
                (snd (transact (createPool example_deployed_at 7 3) empty_registry))
                (reachable_empty example_deployed_at)
                ltac:(discriminate) ltac:(discriminate) ltac:(discriminate)
                eq_refl (later_refl example_deployed_at _))
    as (_ & _ & Hrev & _ & Hget & _).
  exact (conj Hget Hrev).
Defined.

(** ** Swaps: failures, monotonicity, round trips *)

Lemma swapAToB_Err (reenter : N → Callback → World → Result World)
    (sender amountAIn amountBOutMin to : N) (w : World) (e : Failure) :
  entered w = false →
  (amountBOut ← _getAmountOut amountAIn
                  (balanceOf (tokenA w) (this w)) (balanceOf (tokenB w) (this w));
   require (amountBOutMin <=? amountBOut) "Insufficient output amount") = Err e →
  swapAToB reenter sender amountAIn amountBOutMin to w = Err e.
Proof.
  intros He H. unfold swapAToB. apply nonReentrant_Err; [assumption|].
  cbv beta zeta.
  change (reserveA (_update (set_entered true w))) with (balanceOf (tokenA w) (this w)).
  change (reserveB (_update (set_entered true w))) with (balanceOf (tokenB w) (this w)).
  destruct (_getAmountOut amountAIn (balanceOf (tokenA w) (this w))
              (balanceOf (tokenB w) (this w))) as [out|e1]; simpl in *.
  - destruct (amountBOutMin <=? out); simpl in *; [discriminate|].
    injection H as <-. reflexivity.
  - injection H as <-. reflexivity.
Qed.

Lemma swapBToA_Err (reenter : N → Callback → World → Result World)
    (sender amountBIn amountAOutMin to : N) (w : World) (e : Failure) :
  entered w = false →
  (amountAOut ← _getAmountOut amountBIn
                  (balanceOf (tokenB w) (this w)) (balanceOf (tokenA w) (this w));
   require (amountAOutMin <=? amountAOut) "Insufficient output amount") = Err e →
  swapBToA reenter sender amountBIn amountAOutMin to w = Err e.
Proof.
  intros He H. unfold swapBToA. apply nonReentrant_Err; [assumption|].
  cbv beta zeta.
  change (reserveA (_update (set_entered true w))) with (balanceOf (tokenA w) (this w)).
  change (reserveB (_update (set_entered true w))) with (balanceOf (tokenB w) (this w)).
  destruct (_getAmountOut amountBIn (balanceOf (tokenB w) (this w))
              (balanceOf (tokenA w) (this w))) as [out|e1]; simpl in *.
  - destruct (amountAOutMin <=? out); simpl in *; [discriminate|].
    injection H as <-. reflexivity.
  - injection H as <-. reflexivity.
Qed.

Lemma _getAmountOut_zero_input (reserveIn reserveOut : N) :
  _getAmountOut 0 reserveIn reserveOut = Err InsufficientInputAmount.
Proof. reflexivity. Qed.

Lemma _getAmountOut_empty_reserve (amountIn reserveIn reserveOut : N) :
  0 < amountIn → reserveIn = 0 ∨ reserveOut = 0 →
  _getAmountOut amountIn reserveIn reserveOut = Err InsufficientLiquidity.
Proof.
  intros Ha Hempty. unfold _getAmountOut.
  rewrite (proj2 (N.ltb_lt _ _) Ha). rewrite require_true, bind_Ok_l.
  destruct Hempty as [-> | ->]; [reflexivity|].
  destruct (0 <? reserveIn); reflexivity.
Qed.

(** X1. What a swap rejects before it moves anything: a zero input, an
    empty side of the pool (checked after the input), and an output below
    the caller's minimum; each leaves the state as it was. *)
Theorem swap_rejections (reenter : N → Callback → World → Result World)
    (sender amountIn amountOutMin to : N) (w : World) :
  entered w = false →
  (amountIn = 0 →
   transact (swapAToB reenter sender amountIn amountOutMin to) w
   = (Err InsufficientInputAmount, w)
   ∧ transact (swapBToA reenter sender amountIn amountOutMin to) w
     = (Err InsufficientInputAmount, w))
  ∧ (0 < amountIn →
     balanceOf (tokenA w) (this w) = 0 ∨ balanceOf (tokenB w) (this w) = 0 →
     transact (swapAToB reenter sender amountIn amountOutMin to) w
     = (Err InsufficientLiquidity, w)
     ∧ transact (swapBToA reenter sender amountIn amountOutMin to) w
       = (Err InsufficientLiquidity, w))
  ∧ (∀ amountOut,
       _getAmountOut amountIn (balanceOf (tokenA w) (this w)) (balanceOf (tokenB w) (this w))
       = Ok amountOut →
       amountOut < amountOutMin →
       transact (swapAToB reenter sender amountIn amountOutMin to) w
       = (Err (Revert "Insufficient output amount"), w))
  ∧ (∀ amountOut,
       _getAmountOut amountIn (balanceOf (tokenB w) (this w)) (balanceOf (tokenA w) (this w))
       = Ok amountOut →
       amountOut < amountOutMin →
       transact (swapBToA reenter sender amountIn amountOutMin to) w
       = (Err (Revert "Insufficient output amount"), w)).
Proof.
  intros He. split; [|split; [|split]].
  - intros ->. unfold transact.
    rewrite (swapAToB_Err reenter sender 0 amountOutMin to w InsufficientInputAmount),
      (swapBToA_Err reenter sender 0 amountOutMin to w InsufficientInputAmount);
      try assumption; try reflexivity. auto.
  - intros Ha Hempty. unfold transact.
    rewrite (swapAToB_Err reenter sender amountIn amountOutMin to w InsufficientLiquidity),
      (swapBToA_Err reenter sender amountIn amountOutMin to w InsufficientLiquidity);
      try assumption.
    + auto.
    + rewrite _getAmountOut_empty_reserve by tauto. reflexivity.
    + rewrite _getAmountOut_empty_reserve by tauto. reflexivity.
  - intros out Hout Hlt. unfold transact.
    rewrite (swapAToB_Err reenter sender amountIn amountOutMin to w
               (Revert "Insufficient output amount")); [reflexivity | assumption |].
    rewrite Hout. simpl. destruct (N.leb_spec amountOutMin out); [lia | reflexivity].
  - intros out Hout Hlt. unfold transact.
    rewrite (swapBToA_Err reenter sender amountIn amountOutMin to w
               (Revert "Insufficient output amount")); [reflexivity | assumption |].
    rewrite Hout. simpl. destruct (N.leb_spec amountOutMin out); [lia | reflexivity].
Qed.

Lemma swap_rejections_witness :
  transact (swapAToB (reenter_at 1) alice 5 0 alice) fresh_pool
  = (Err InsufficientLiquidity, fresh_pool).
Proof.
  exact (proj1 (proj1 (proj2 (swap_rejections (reenter_at 1) alice 5 0 alice fresh_pool
                                eq_refl))
                  eq_refl (or_introl eq_refl))).
Defined.

Lemma div_fraction_le (n1 d1 n2 d2 : N) :
  0 < d1 → 0 < d2 → n1 * d2 ≤ n2 * d1 → n1 / d1 ≤ n2 / d2.
Proof.
  intros H1 H2 Hle.
  apply N.div_le_lower_bound; [lia|].
  pose proof (N.Div0.mul_div_le n1 d1) as Hq.
  assert (d1 * (d2 * (n1 / d1)) ≤ d1 * n2) as Hmul by nia.
  apply N.mul_le_mono_pos_l in Hmul; assumption.
Qed.

(** X2. A larger input never buys less: the output of the swap formula is
    monotone in the amount paid in. *)
Theorem _getAmountOut_monotone (amountIn amountIn' reserveIn reserveOut out out' : N) :
  amountIn ≤ amountIn' →
  _getAmountOut amountIn reserveIn reserveOut = Ok out →
  _getAmountOut amountIn' reserveIn reserveOut = Ok out' →
  out ≤ out'.
Proof.
  intros Hle H H'.
  apply _getAmountOut_Ok in H as (Ha & Hi & Ho & _ & ->).
  apply _getAmountOut_Ok in H' as (Ha' & _ & _ & _ & ->).
  unfold swap_output. change (10000 - 30) with 9970.
  apply div_fraction_le; [lia | lia | nia].
Qed.

Lemma _getAmountOut_monotone_witness : 18132217877602982631 ≤ 33249958312489578122.
Proof.
  exact (_getAmountOut_monotone (10 * 10 ^ 18) (20 * 10 ^ 18) (100 * 10 ^ 18) (200 * 10 ^ 18)
           18132217877602982631 33249958312489578122
           ltac:(vm_compute; discriminate) eq_refl eq_refl).
Defined.

(** The balances of the pool after a completed swap. *)
Lemma swapAToB_balances (depth : nat) (sender amountAIn amountBOutMin to : N)
    (w : World) (amountBOut : N) (w' : World) :
  swapAToB (reenter_at depth) sender amountAIn amountBOutMin to w = Ok (amountBOut, w') →
  sender ≠ this w →
  this w' = this w
  ∧ balanceOf (tokenA w') (this w) = balanceOf (tokenA w) (this w) + amountAIn
  ∧ (to ≠ this w →
     balanceOf (tokenB w') (this w) = balanceOf (tokenB w) (this w) - amountBOut
     ∧ balanceOf (tokenB w') to = balanceOf (tokenB w) to + amountBOut)
  ∧ (to = this w → balanceOf (tokenB w') (this w) = balanceOf (tokenB w) (this w)).
Proof.
  intros Hswap Hsender.
  apply swapAToB_Ok in Hswap
    as (_ & _ & _ & tA1 & tA2 & tB2 & Hspend & HmoveA & HmoveB & Hthis & -> & -> & _).
  apply ledger_spend_Ok in Hspend as (_ & _ & Hbal1 & _).
  apply ledger_move_Ok in HmoveA as (_ & _ & _ & _ & _ & _ & HbalA).
  apply ledger_move_Ok in HmoveB as (_ & _ & _ & _ & _ & _ & HbalB).
  split; [assumption|]. rewrite !HbalA, !HbalB.
  rewrite (balanceOf_ext (tokenA w) tA1) by assumption.
  repeat split; intros; repeat (destruct (decide _); try congruence).
Qed.

Lemma swapBToA_balances (depth : nat) (sender amountBIn amountAOutMin to : N)
    (w : World) (amountAOut : N) (w' : World) :
  swapBToA (reenter_at depth) sender amountBIn amountAOutMin to w = Ok (amountAOut, w') →
  sender ≠ this w →
  this w' = this w
  ∧ balanceOf (tokenB w') (this w) = balanceOf (tokenB w) (this w) + amountBIn
  ∧ (to ≠ this w →
     balanceOf (tokenA w') (this w) = balanceOf (tokenA w) (this w) - amountAOut
     ∧ balanceOf (tokenA w') to = balanceOf (tokenA w) to + amountAOut)
  ∧ (to = this w → balanceOf (tokenA w') (this w) = balanceOf (tokenA w) (this w)).
Proof.
  intros Hswap Hsender.
  apply swapBToA_Ok in Hswap
    as (_ & _ & _ & tB1 & tB2 & tA2 & Hspend & HmoveB & HmoveA & Hthis & -> & -> & _).
  apply ledger_spend_Ok in Hspend as (_ & _ & Hbal1 & _).
  apply ledger_move_Ok in HmoveA as (_ & _ & _ & _ & _ & _ & HbalA).
  apply ledger_move_Ok in HmoveB as (_ & _ & _ & _ & _ & _ & HbalB).
  split; [assumption|]. rewrite !HbalA, !HbalB.
  rewrite (balanceOf_ext (tokenB w) tB1) by assumption.
  repeat split; intros; repeat (destruct (decide _); try congruence).
Qed.

Lemma swap_back_loses (amountIn reserveIn reserveOut out back : N) :
  _getAmountOut amountIn reserveIn reserveOut = Ok out →
  _getAmountOut out (reserveOut - out) (reserveIn + amountIn) = Ok back →
  back < amountIn.
Proof.
  intros H1 H2.
  apply _getAmountOut_Ok in H1 as H1'. destruct H1' as (Ha & Hi & Ho & _ & Hout).
  apply _getAmountOut_Ok in H2 as H2'. destruct H2' as (Hb & Hi2 & Ho2 & _ & Hback).
  pose proof (swap_product_grows amountIn reserveIn reserveOut Ha Hi Ho) as G1.
  pose proof (swap_product_grows out (reserveOut - out) (reserveIn + amountIn) Hb Hi2 Ho2)
    as G2.
  rewrite <- Hout in G1. rewrite <- Hback in G2.
  replace (reserveOut - out + out) with reserveOut in G2 by lia.
  destruct (N.lt_ge_cases back amountIn) as [|Hge]; [assumption|].
  exfalso.
  assert (reserveIn + amountIn - back ≤ reserveIn) as Hsmall by lia.
  assert (reserveOut * (reserveIn + amountIn - back) ≤ reserveOut * reserveIn) as Hmul
    by (apply N.mul_le_mono_l; exact Hsmall).
  lia.
Qed.

(** X3. Trading there and back loses: the output of a completed
    [swapAToB], swapped back with [swapBToA] right after it, returns
    strictly less of token A than was paid in; and the same the other way
    round. *)
Theorem swap_round_trip_loses (depth depth' : nat)
    (sender to sender' to' amountIn min1 min2 : N)
    (w w1 w2 : World) (out back : N) :
  sender ≠ this w → to ≠ this w →
  (swapAToB (reenter_at depth) sender amountIn min1 to w = Ok (out, w1) →
   swapBToA (reenter_at depth') sender' out min2 to' w1 = Ok (back, w2) →
   back < amountIn)
  ∧ (swapBToA (reenter_at depth) sender amountIn min1 to w = Ok (out, w1) →
     swapAToB (reenter_at depth') sender' out min2 to' w1 = Ok (back, w2) →
     back < amountIn).
Proof.
  intros Hsender Hto. split.
  - intros Hgo Hback.
    pose proof (swapAToB_balances _ _ _ _ _ _ _ _ Hgo Hsender) as (Hthis & HA & HB & _).
    destruct (HB Hto) as [HB' _].
    apply swapAToB_Ok in Hgo as (_ & Hout & _).
    apply swapBToA_Ok in Hback as (_ & Hout2 & _).
    rewrite Hthis, HA, HB' in Hout2.
    eapply swap_back_loses; eassumption.
  - intros Hgo Hback.
    pose proof (swapBToA_balances _ _ _ _ _ _ _ _ Hgo Hsender) as (Hthis & HB & HA & _).
    destruct (HA Hto) as [HA' _].
    apply swapBToA_Ok in Hgo as (_ & Hout & _).
    apply swapAToB_Ok in Hback as (_ & Hout2 & _).
    rewrite Hthis, HA', HB in Hout2.
    eapply swap_back_loses; eassumption.
Qed.

Lemma swap_round_trip_loses_witness : 9945506684595219086 < 10 * 10 ^ 18.
Proof.
  exact (proj1 (swap_round_trip_loses 1 1 alice alice alice alice (10 * 10 ^ 18) 0 0
                  funded_pool traded_pool
                  (snd (transact (swapBToA (reenter_at 1) alice 18132217877602982631 0 alice)
                          traded_pool))
                  18132217877602982631 9945506684595219086
                  ltac:(vm_compute; discriminate) ltac:(vm_compute; discriminate))
           ltac:(vm_compute; reflexivity) ltac:(vm_compute; reflexivity)).
Defined.



(** X13. A completed swap paid the recipient exactly the returned output,
    which is at least the caller's minimum, and took exactly the input
    into the pool; it left the share supply as it was, and every share
    balance too when the transfer logic of the two tokens calls no share
    function of the pool. *)
Theorem swap_delivers_minimum (depth : nat) (sender amountIn amountOutMin to : N)
    (w w' : World) (amountOut : N) :
  sender ≠ this w → to ≠ this w →
  (swapAToB (reenter_at depth) sender amountIn amountOutMin to w = Ok (amountOut, w') →
   amountOutMin ≤ amountOut
   ∧ balanceOf (tokenB w') to = balanceOf (tokenB w) to + amountOut
   ∧ balanceOf (tokenA w') (this w') = balanceOf (tokenA w) (this w) + amountIn
   ∧ totalSupply w' = totalSupply w
   ∧ (no_share_calls (tokenA w) = true → no_share_calls (tokenB w) = true →
      lpBalances w' = lpBalances w))
  ∧ (swapBToA (reenter_at depth) sender amountIn amountOutMin to w = Ok (amountOut, w') →
     amountOutMin ≤ amountOut
     ∧ balanceOf (tokenA w') to = balanceOf (tokenA w) to + amountOut
     ∧ balanceOf (tokenB w') (this w') = balanceOf (tokenB w) (this w) + amountIn
     ∧ totalSupply w' = totalSupply w
     ∧ (no_share_calls (tokenA w) = true → no_share_calls (tokenB w) = true →
        lpBalances w' = lpBalances w)).
Proof.
  intros Hsender Hto. split; intros Hswap.
  - pose proof (swapAToB_balances _ _ _ _ _ _ _ _ Hswap Hsender) as (Hthis & HA & HB & _).
    destruct (HB Hto) as [_ HB'].
    apply swapAToB_Ok in Hswap
      as (_ & _ & Hmin & tA1 & tA2 & tB2 & _ & _ & _ & _ & _ & _ & _ & _ & Hs & Hlp & _).
    rewrite Hthis. auto.
  - pose proof (swapBToA_balances _ _ _ _ _ _ _ _ Hswap Hsender) as (Hthis & HB & HA & _).
    destruct (HA Hto) as [_ HA'].
    apply swapBToA_Ok in Hswap
      as (_ & _ & Hmin & tB1 & tB2 & tA2 & _ & _ & _ & _ & _ & _ & _ & _ & Hs & Hlp & _).
    rewrite Hthis. auto.
Qed.

Lemma swap_delivers_minimum_witness : 18 * 10 ^ 18 ≤ 18132217877602982631.
Proof.
  exact (proj1 (proj1 (swap_delivers_minimum 1 alice (10 * 10 ^ 18) (18 * 10 ^ 18) bob
                  funded_pool
                  (snd (transact (swapAToB (reenter_at 1) alice (10 * 10 ^ 18)
                                    (18 * 10 ^ 18) bob) funded_pool))
                  18132217877602982631
                  ltac:(vm_compute; discriminate) ltac:(vm_compute; discriminate))
           ltac:(vm_compute; reflexivity))).
Defined.

Lemma entry_reserves_synced (depth : nat) (sender : N) (c : Call) (w w' : World) :
  entry (reenter_at depth) sender c w = Ok w' → reserves_synced w'.
Proof.
  intros H. unfold reserves_synced. destruct c; simpl in H.
  - apply bind_Ok in H as ([liq w1] & H & [= <-]).
    apply addLiquidity_Ok in H
      as (_ & a & b & tA1 & tA2 & tB1 & tB2 & _ & _ & _ & _ & _
          & -> & -> & -> & -> & -> & _).
    split; reflexivity.
  - apply bind_Ok in H as ([[a b] w1] & H & [= <-]).
    apply removeLiquidity_Ok in H
      as (_ & _ & _ & _ & tA2 & tB2 & _ & _ & -> & -> & -> & -> & -> & _).
    split; reflexivity.
  - apply bind_Ok in H as ([out w1] & H & [= <-]).
    apply swapAToB_Ok in H
      as (_ & _ & _ & tA1 & tA2 & tB2 & _ & _ & _ & -> & -> & -> & -> & -> & _).
    split; reflexivity.
  - apply bind_Ok in H as ([out w1] & H & [= <-]).
    apply swapBToA_Ok in H
      as (_ & _ & _ & tB1 & tB2 & tA2 & _ & _ & _ & -> & -> & -> & -> & -> & _).
    split; reflexivity.
  - injection H as <-. split; reflexivity.
Qed.

(** X10. After any completed operation the read-only quote is the output
    the next swap computes. *)
Theorem quote_matches_next_swap (depth depth' : nat) (caller : N) (c : Call)
    (sender amountIn amountOutMin to : N) (w0 w w' : World) (amountOut : N) :
  entry (reenter_at depth) caller c w0 = Ok w →
  (swapAToB (reenter_at depth') sender amountIn amountOutMin to w = Ok (amountOut, w') →
   getAmountOut amountIn true w = Ok amountOut)
  ∧ (swapBToA (reenter_at depth') sender amountIn amountOutMin to w = Ok (amountOut, w') →
     getAmountOut amountIn false w = Ok amountOut).
Proof.
  intros Hop.
  apply entry_reserves_synced in Hop as [HA HB].
  split; intros Hswap; unfold getAmountOut; rewrite HA, HB.
  - apply swapAToB_Ok in Hswap as (_ & Hout & _). exact Hout.
  - apply swapBToA_Ok in Hswap as (_ & Hout & _). exact Hout.
Qed.

Lemma quote_matches_next_swap_witness :
  getAmountOut 18132217877602982631 false traded_pool = Ok 9945506684595219086.
Proof.
  exact (proj2 (quote_matches_next_swap 1 1 alice (CallSwapAToB (10 * 10 ^ 18) 0 alice)
                  alice 18132217877602982631 0 alice funded_pool traded_pool
                  (snd (transact (swapBToA (reenter_at 1) alice 18132217877602982631 0 alice)
                          traded_pool))
                  9945506684595219086 ltac:(vm_compute; reflexivity))
           ltac:(vm_compute; reflexivity)).
Defined.

(** ** Deposits and withdrawals *)

Lemma _sqrt_Ok (y z : N) : y ≤ MAX_UINT256 → _sqrt y = Ok z → z = N.sqrt y.
Proof. intros Hy H. rewrite _sqrt_floor in H by assumption. congruence. Qed.

Lemma share_Ok (amount supply reserve share : N) :
  (p ← checked_mul amount supply; checked_div p reserve) = Ok share →
  share = amount * supply / reserve ∧ reserve ≠ 0.
Proof.
  intros H. apply bind_Ok in H as (p & Hp & H).
  apply checked_mul_Ok in Hp as [-> _]. apply checked_div_Ok in H. exact H.
Qed.

Lemma share_Err (amount supply reserve : N) (e : Failure) :
  (p ← checked_mul amount supply; checked_div p reserve) = Err e → ∃ code, e = Panic code.
Proof.
  unfold checked_mul, checked_div.
  destruct (amount * supply <=? MAX_UINT256); simpl.
  - destruct (reserve =? 0); [|discriminate]. intros [= <-]. eauto.
  - intros [= <-]. eauto.
Qed.

Lemma quote_back_le (amountADesired amountBDesired _reserveA _reserveB : N) :
  0 < _reserveA →
  amountBDesired < amountADesired * _reserveB / _reserveA →
  amountBDesired * _reserveA / _reserveB < amountADesired.
Proof.
  intros HA Hlt.
  assert ((amountBDesired + 1) * _reserveA ≤ amountADesired * _reserveB) as Hfloor.
  { pose proof (N.Div0.mul_div_le (amountADesired * _reserveB) _reserveA). nia. }
  apply N.Div0.div_lt_upper_bound. nia.
Qed.

(** What the computation of a deposit returned. *)
Lemma addLiquidity_amounts_Ok (_reserveA _reserveB supply : N)
    (amountADesired amountBDesired amountAMin amountBMin liquidity amountA amountB : N) :
  addLiquidity_amounts _reserveA _reserveB supply
    amountADesired amountBDesired amountAMin amountBMin
  = Ok (liquidity, amountA, amountB) →
  0 < liquidity
  ∧ ((_reserveA = 0 ∧ _reserveB = 0
      ∧ amountA = amountADesired ∧ amountB = amountBDesired
      ∧ MINIMUM_LIQUIDITY < N.sqrt (amountADesired * amountBDesired)
      ∧ liquidity = N.sqrt (amountADesired * amountBDesired) - MINIMUM_LIQUIDITY)
     ∨ (0 < _reserveA ∧ 0 < _reserveB
        ∧ liquidity = N.min (amountA * supply / _reserveA) (amountB * supply / _reserveB)
        ∧ ((amountA = amountADesired
            ∧ amountB = amountADesired * _reserveB / _reserveA
            ∧ amountB ≤ amountBDesired ∧ amountBMin ≤ amountB)
           ∨ (amountB = amountBDesired
              ∧ amountA = amountBDesired * _reserveA / _reserveB
              ∧ amountA < amountADesired ∧ amountAMin ≤ amountA)))).
Proof.
  unfold addLiquidity_amounts. intros H.
  apply bind_Ok in H as ([[liq a] b] & Hbranch & H).
  apply bind_Ok in H as (u & Hpos & H). apply require_Ok, N.ltb_lt in Hpos.
  injection H as <- <- <-. split; [assumption|].
  destruct ((_reserveA =? 0) && (_reserveB =? 0)) eqn:Hempty.
  - left. apply andb_prop in Hempty as [HA HB]. apply N.eqb_eq in HA, HB.
    apply bind_Ok in Hbranch as (p & Hp & H). apply checked_mul_Ok in Hp as [-> Hfits].
    apply bind_Ok in H as (s & Hs & H). apply _sqrt_Ok in Hs as ->; [|assumption].
    apply bind_Ok in H as (u1 & Hmin & H). apply require_Ok, N.ltb_lt in Hmin.
    apply bind_Ok in H as (l & Hl & H). apply checked_sub_Ok in Hl as [-> _].
    injection H as <- <- <-. repeat split; assumption.
  - right.
    apply bind_Ok in Hbranch as (bOpt & Hq & H).
    apply _quote_Ok in Hq as (Ha & HA & HB & _ & ->).
    apply bind_Ok in H as ([aOpt bOpt'] & Hside & H).
    apply bind_Ok in H as (sA & HsA & H). apply share_Ok in HsA as [-> _].
    apply bind_Ok in H as (sB & HsB & H). apply share_Ok in HsB as [-> _].
    injection H as <- <- <-. rewrite _min_min.
    split; [assumption|]. split; [assumption|]. split; [reflexivity|].
    destruct (N.leb_spec (amountADesired * _reserveB / _reserveA) amountBDesired) as [Hle|Hgt].
    + left. apply bind_Ok in Hside as (u1 & Hmin & H).
      apply require_Ok, N.leb_le in Hmin. injection H as <- <-. auto.
    + right. apply bind_Ok in Hside as (aOpt' & Hq & H).
      apply _quote_Ok in Hq as (_ & _ & _ & _ & ->).
      apply bind_Ok in H as (u1 & Hreq & H).
      apply require_Ok, andb_prop in Hreq as [_ Hmin]. apply N.leb_le in Hmin.
      injection H as <- <-.
      split; [reflexivity|]. split; [reflexivity|].
      split; [apply quote_back_le; assumption | assumption].
Qed.

(** The amounts a completed deposit pulled into the pool. *)
Lemma addLiquidity_pulled (depth : nat)
    (sender amountADesired amountBDesired amountAMin amountBMin : N)
    (w w' : World) (liquidity : N) :
  sender ≠ this w →
  addLiquidity (reenter_at depth) sender
    amountADesired amountBDesired amountAMin amountBMin w = Ok (liquidity, w') →
  ∃ amountA amountB,
    balanceOf (tokenA w') (this w') = balanceOf (tokenA w) (this w) + amountA
    ∧ balanceOf (tokenB w') (this w') = balanceOf (tokenB w) (this w) + amountB
    ∧ amountA ≤ amountADesired ∧ amountB ≤ amountBDesired
    ∧ 0 < liquidity
    ∧ liquidity * balanceOf (tokenA w) (this w) ≤ amountA * totalSupply w
    ∧ liquidity * balanceOf (tokenB w) (this w) ≤ amountB * totalSupply w
    ∧ totalSupply w' = totalSupply w + liquidity.
Proof.
  intros Hsender Hadd.
  apply addLiquidity_Ok in Hadd
    as (_ & a & b & tA1 & tA2 & tB1 & tB2 & Hamounts & HspA & HmvA & HspB & HmvB
        & Hthis & HtA & HtB & _ & _ & _ & _ & Hsupply & _ & _).
  exists a, b. rewrite Hthis, HtA, HtB.
  apply ledger_spend_Ok in HspA as (_ & _ & HbA & _).
  apply ledger_spend_Ok in HspB as (_ & _ & HbB & _).
  apply ledger_move_Ok in HmvA as (_ & _ & _ & _ & _ & _ & HbalA).
  apply ledger_move_Ok in HmvB as (_ & _ & _ & _ & _ & _ & HbalB).
  rewrite HbalA, HbalB.
  repeat (destruct (decide _); try congruence).
  rewrite (balanceOf_ext (tokenA w) tA1), (balanceOf_ext (tokenB w) tB1) by assumption.
  split; [reflexivity|]. split; [reflexivity|].
  apply addLiquidity_amounts_Ok in Hamounts as (Hpos & Hcases).
  assert (a ≤ amountADesired ∧ b ≤ amountBDesired
          ∧ liquidity * balanceOf (tokenA w) (this w) ≤ a * totalSupply w
          ∧ liquidity * balanceOf (tokenB w) (this w) ≤ b * totalSupply w) as (H1 & H2 & H3 & H4).
  { destruct Hcases as [(HA & HB & -> & -> & _ & _) | (HA & HB & Hliq & Hside)].
    - rewrite HA, HB, !N.mul_0_r. repeat split; try apply N.le_0_l; apply N.le_refl.
    - assert (liquidity * balanceOf (tokenA w) (this w) ≤ a * totalSupply w
              ∧ liquidity * balanceOf (tokenB w) (this w) ≤ b * totalSupply w) as [H3 H4].
      { pose proof (N.Div0.mul_div_le (a * totalSupply w) (balanceOf (tokenA w) (this w))).
        pose proof (N.Div0.mul_div_le (b * totalSupply w) (balanceOf (tokenB w) (this w))).
        pose proof (N.le_min_l (a * totalSupply w / balanceOf (tokenA w) (this w))
                      (b * totalSupply w / balanceOf (tokenB w) (this w))).
        pose proof (N.le_min_r (a * totalSupply w / balanceOf (tokenA w) (this w))
                      (b * totalSupply w / balanceOf (tokenB w) (this w))).
        rewrite <- Hliq in *. split; nia. }
      destruct Hside as [(-> & Hb & Hle & _) | (-> & Ha & Hlt & _)].
      + repeat split; try assumption. apply N.le_refl.
      + repeat split; try assumption; [lia | apply N.le_refl]. }
  repeat split; assumption.
Qed.

(** X5. A deposit never pulls more than the caller offered and never mints
    more than the smaller of the two proportional shares: for the pulled
    amounts [amountA <= amountADesired], [amountB <= amountBDesired], and on
    a pool with balances [liquidity * reserveA <= amountA * totalSupply] and
    [liquidity * reserveB <= amountB * totalSupply]; the supply grows by
    the returned [liquidity > 0], and so does the caller's share balance
    when the transfer logic of the two tokens calls no share function of
    the pool. *)
Theorem deposit_within_desired (depth : nat)
    (sender amountADesired amountBDesired amountAMin amountBMin : N)
    (w w' : World) (liquidity : N) :
  sender ≠ this w →
  addLiquidity (reenter_at depth) sender
    amountADesired amountBDesired amountAMin amountBMin w = Ok (liquidity, w') →
  ∃ amountA amountB,
    balanceOf (tokenA w') (this w') = balanceOf (tokenA w) (this w) + amountA
    ∧ balanceOf (tokenB w') (this w') = balanceOf (tokenB w) (this w) + amountB
    ∧ amountA ≤ amountADesired ∧ amountB ≤ amountBDesired
    ∧ 0 < liquidity
    ∧ liquidity * balanceOf (tokenA w) (this w) ≤ amountA * totalSupply w
    ∧ liquidity * balanceOf (tokenB w) (this w) ≤ amountB * totalSupply w
    ∧ totalSupply w' = totalSupply w + liquidity
    ∧ (no_share_calls (tokenA w) = true → no_share_calls (tokenB w) = true →
       lpBalanceOf w' sender = lpBalanceOf w sender + liquidity).
Proof.
  intros Hsender Hadd.
  destruct (addLiquidity_pulled _ _ _ _ _ _ _ _ _ Hsender Hadd)
    as (a & b & HA & HB & Ha & Hb & Hpos & HsA & HsB & Hsupply).
  exists a, b.
  apply addLiquidity_Ok in Hadd
    as (_ & _ & _ & _ & _ & _ & _ & _ & _ & _ & _ & _ & _ & _ & _ & _ & _ & _ & _ & _ & Hlp & _).
  repeat split; try assumption.
  intros QA QB. eapply lpBalanceOf_insert. exact (proj1 Hlp (conj QA QB)).
Qed.

Lemma deposit_within_desired_witness :
  ∃ amountA amountB,
    balanceOf (tokenA (snd (transact (addLiquidity (reenter_at 1) alice (10 ^ 18) (3 * 10 ^ 18)
                                        0 0) funded_pool))) pool_address
    = 100 * 10 ^ 18 + amountA
    ∧ amountA ≤ 10 ^ 18 ∧ amountB ≤ 3 * 10 ^ 18.
Proof.
  destruct (deposit_within_desired 1 alice (10 ^ 18) (3 * 10 ^ 18) 0 0 funded_pool
              (snd (transact (addLiquidity (reenter_at 1) alice (10 ^ 18) (3 * 10 ^ 18) 0 0)
                      funded_pool))
              1414213562373095038
              ltac:(vm_compute; discriminate) ltac:(vm_compute; reflexivity))
    as (a & b & HA & _ & Ha & Hb & _).
  exists a, b. exact (conj HA (conj Ha Hb)).
Defined.

(** X6. In the second branch of a deposit the amount of token A derived
    from [amountBDesired] is always below [amountADesired]: the check
    [amountAOptimal <= amountADesired] never fails, and "Insufficient A
    amount" only ever means [amountAOptimal < amountAMin]. *)
Theorem desired_bound_never_binds
    (amountADesired amountBDesired _reserveA _reserveB amountBOptimal amountAOptimal : N) :
  _quote amountADesired _reserveA _reserveB = Ok amountBOptimal →
  amountBDesired < amountBOptimal →
  _quote amountBDesired _reserveB _reserveA = Ok amountAOptimal →
  amountAOptimal < amountADesired
  ∧ ∀ supply amountAMin amountBMin,
      addLiquidity_amounts _reserveA _reserveB supply
        amountADesired amountBDesired amountAMin amountBMin
      = Err (Revert "Insufficient A amount") →
      amountAOptimal < amountAMin.
Proof.
  intros Hq Hlt Hq'.
  apply _quote_Ok in Hq as Hq1. destruct Hq1 as (_ & HA & HB & _ & Hb).
  apply _quote_Ok in Hq' as Hq2. destruct Hq2 as (_ & _ & _ & _ & Ha).
  assert (amountAOptimal < amountADesired) as Hbound.
  { rewrite Ha. apply quote_back_le; [assumption|]. rewrite <- Hb. exact Hlt. }
  split; [exact Hbound|].
  intros supply amountAMin amountBMin. unfold addLiquidity_amounts.
  destruct (N.eqb_spec _reserveA 0) as [|_]; [lia|]. cbn [andb].
  rewrite Hq, bind_Ok_l.
  destruct (N.leb_spec amountBOptimal amountBDesired); [lia|].
  rewrite Hq', bind_Ok_l.
  rewrite (proj2 (N.leb_le amountAOptimal amountADesired)) by lia. cbn [andb].
  destruct (N.leb_spec amountAMin amountAOptimal) as [Hmin|Hmin]; [|intros _; exact Hmin].
  rewrite require_true, !bind_Ok_l.
  destruct (p ← checked_mul amountAOptimal supply; checked_div p _reserveA) as [sA|e] eqn:HsA;
    [|apply share_Err in HsA as [code ->]; simpl; discriminate].
  rewrite bind_Ok_l.
  destruct (p ← checked_mul amountBDesired supply; checked_div p _reserveB) as [sB|e] eqn:HsB;
    [|apply share_Err in HsB as [code ->]; simpl; discriminate].
  rewrite !bind_Ok_l. cbv beta iota.
  destruct (0 <? _min sA sB); simpl; discriminate.
Qed.

Lemma desired_bound_never_binds_witness : 5 < 100.
Proof.
  exact (proj1 (desired_bound_never_binds 100 10 1000 2000 200 5
                  eq_refl eq_refl eq_refl)).
Defined.

(** The balances of the pool after a completed withdrawal. *)
Lemma removeLiquidity_balances (depth : nat)
    (sender liquidity amountAMin amountBMin to : N)
    (w : World) (amountA amountB : N) (w' : World) :
  removeLiquidity (reenter_at depth) sender liquidity amountAMin amountBMin to w
  = Ok (amountA, amountB, w') →
  amountA = liquidity * balanceOf (tokenA w) (this w) / totalSupply w
  ∧ amountB = liquidity * balanceOf (tokenB w) (this w) / totalSupply w
  ∧ totalSupply w ≠ 0
  ∧ amountA ≤ balanceOf (tokenA w) (this w) ∧ amountB ≤ balanceOf (tokenB w) (this w)
  ∧ totalSupply w' = totalSupply w - liquidity
  ∧ (to ≠ this w →
     reserveA w' = balanceOf (tokenA w) (this w) - amountA
     ∧ reserveB w' = balanceOf (tokenB w) (this w) - amountB).
Proof.
  intros Hrem.
  apply removeLiquidity_Ok in Hrem
    as (_ & Hamounts & _ & _ & tA2 & tB2 & HmvA & HmvB & _ & _ & _ & HrA & HrB & Hsupply & _).
  assert (totalSupply w ≠ 0) as HT.
  { unfold removeLiquidity_amounts in Hamounts.
    apply bind_Ok in Hamounts as (a & Ha & _). apply share_Ok in Ha. tauto. }
  apply removeLiquidity_amounts_Ok in Hamounts as (-> & -> & _).
  apply ledger_move_Ok in HmvA as (_ & _ & HleA & _ & _ & _ & HbalA).
  apply ledger_move_Ok in HmvB as (_ & _ & HleB & _ & _ & _ & HbalB).
  repeat split; try assumption.
  - rewrite HrA, HbalA. repeat (destruct (decide _); try congruence).
  - rewrite HrB, HbalB. repeat (destruct (decide _); try congruence).
Qed.

(** X7. Depositing and withdrawing the minted shares right away never
    returns more than the deposit pulled, for either token. *)
Theorem deposit_withdraw_round_trip (depth depth' : nat)
    (sender amountADesired amountBDesired amountAMin amountBMin : N)
    (withdrawer minA minB to : N)
    (w w1 w2 : World) (liquidity backA backB : N) :
  sender ≠ this w →
  addLiquidity (reenter_at depth) sender
    amountADesired amountBDesired amountAMin amountBMin w = Ok (liquidity, w1) →
  removeLiquidity (reenter_at depth') withdrawer liquidity minA minB to w1
  = Ok (backA, backB, w2) →
  balanceOf (tokenA w) (this w) + backA ≤ balanceOf (tokenA w1) (this w1)
  ∧ balanceOf (tokenB w) (this w) + backB ≤ balanceOf (tokenB w1) (this w1)
  ∧ backA ≤ amountADesired ∧ backB ≤ amountBDesired.
Proof.
  intros Hsender Hadd Hrem.
  destruct (addLiquidity_pulled _ _ _ _ _ _ _ _ _ Hsender Hadd)
    as (a & b & HA & HB & Ha & Hb & Hpos & HsA & HsB & Hsupply).
  apply removeLiquidity_balances in Hrem as (HbackA & HbackB & HT & _).
  rewrite HA, HB, Hsupply in *.
  assert (backA ≤ a ∧ backB ≤ b) as [HleA HleB].
  { split.
    - rewrite HbackA. apply N.Div0.div_le_upper_bound. nia.
    - rewrite HbackB. apply N.Div0.div_le_upper_bound. nia. }
  lia.
Qed.

Lemma deposit_withdraw_round_trip_witness :
  999999999999999999 ≤ 10 ^ 18 ∧ 1999999999999999998 ≤ 3 * 10 ^ 18.
Proof.
  exact (proj2 (proj2 (deposit_withdraw_round_trip 1 1 alice (10 ^ 18) (3 * 10 ^ 18) 0 0
                  alice 0 0 alice funded_pool
                  (snd (transact (addLiquidity (reenter_at 1) alice (10 ^ 18) (3 * 10 ^ 18) 0 0)
                          funded_pool))
                  (snd (transact (removeLiquidity (reenter_at 1) alice 1414213562373095038
                                    0 0 alice)
                          (snd (transact (addLiquidity (reenter_at 1) alice (10 ^ 18)
                                            (3 * 10 ^ 18) 0 0) funded_pool))))
                  1414213562373095038 999999999999999999 1999999999999999998
                  ltac:(vm_compute; discriminate)
                  ltac:(vm_compute; reflexivity) ltac:(vm_compute; reflexivity)))).
Defined.

(** X8. Withdrawing the whole supply pays out both balances of the pool in
    full and leaves no share and no reserve behind. *)
Theorem full_withdrawal_empties_pool (depth : nat)
    (sender amountAMin amountBMin to : N) (w w' : World) (amountA amountB : N) :
  removeLiquidity (reenter_at depth) sender (totalSupply w) amountAMin amountBMin to w
  = Ok (amountA, amountB, w') →
  amountA = balanceOf (tokenA w) (this w)
  ∧ amountB = balanceOf (tokenB w) (this w)
  ∧ 0 < amountA ∧ 0 < amountB
  ∧ totalSupply w' = 0
  ∧ (to ≠ this w → reserveA w' = 0 ∧ reserveB w' = 0).
Proof.
  intros Hrem.
  apply removeLiquidity_balances in Hrem as Hbal.
  destruct Hbal as (HA & HB & HT & _ & _ & Hsupply & Hres).
  rewrite N.mul_comm, N.div_mul in HA by assumption.
  rewrite N.mul_comm, N.div_mul in HB by assumption.
  apply removeLiquidity_Ok in Hrem as (_ & Hamounts & _).
  apply removeLiquidity_amounts_Ok in Hamounts as (_ & _ & HposA & HposB & _).
  split; [assumption|]. split; [assumption|]. split; [assumption|]. split; [assumption|].
  split; [lia|].
  intros Hto. destruct (Hres Hto) as [-> ->]. lia.
Qed.

Lemma full_withdrawal_empties_pool_witness :
  100 * 10 ^ 18 = balanceOf (tokenA funded_pool) (this funded_pool)
  ∧ totalSupply (snd (transact (removeLiquidity (reenter_at 1) alice (totalSupply funded_pool)
                                  0 0 bob) funded_pool)) = 0.
Proof.
  destruct (full_withdrawal_empties_pool 1 alice 0 0 bob funded_pool
              (snd (transact (removeLiquidity (reenter_at 1) alice (totalSupply funded_pool)
                                0 0 bob) funded_pool))
              (100 * 10 ^ 18) (200 * 10 ^ 18) ltac:(vm_compute; reflexivity))
    as (HA & _ & _ & _ & Hsupply & _).
  exact (conj HA Hsupply).
Defined.

(** X9. The minimum liquidity locks nothing. The first deposit into a pool
    without shares mints floor(sqrt(amountADesired * amountBDesired)) - 1000
    shares, and these are the whole supply; withdrawing them returns the
    whole deposit and takes the pool back to no shares. *)
Theorem first_depositor_recovers_deposit (depth depth' : nat)
    (sender amountADesired amountBDesired amountAMin amountBMin : N)
    (withdrawer minA minB to : N)
    (w w1 w2 : World) (liquidity backA backB : N) :
  totalSupply w = 0 → sender ≠ this w →
  addLiquidity (reenter_at depth) sender
    amountADesired amountBDesired amountAMin amountBMin w = Ok (liquidity, w1) →
  liquidity = N.sqrt (amountADesired * amountBDesired) - MINIMUM_LIQUIDITY
  ∧ totalSupply w1 = liquidity
  ∧ balanceOf (tokenA w1) (this w1) = amountADesired
  ∧ balanceOf (tokenB w1) (this w1) = amountBDesired
  ∧ (removeLiquidity (reenter_at depth') withdrawer liquidity minA minB to w1
     = Ok (backA, backB, w2) →
     backA = amountADesired ∧ backB = amountBDesired ∧ totalSupply w2 = 0).
Proof.
  intros HT Hsender Hadd.
  destruct (addLiquidity_pulled _ _ _ _ _ _ _ _ _ Hsender Hadd)
    as (a & b & HA & HB & _ & _ & Hpos & _ & _ & Hsupply).
  apply addLiquidity_Ok in Hadd as Hinv.
  destruct Hinv as (He & a' & b' & tA1 & tA2 & tB1 & tB2 & Hamounts & HspA & HmvA & HspB & HmvB
                    & Hthis & HtA & HtB & _).
  assert (balanceOf (tokenA w) (this w) = 0 ∧ balanceOf (tokenB w) (this w) = 0) as [HA0 HB0].
  { destruct (N.eq_dec (balanceOf (tokenA w) (this w)) 0) as [H0|H0];
      [destruct (N.eq_dec (balanceOf (tokenB w) (this w)) 0) as [H1|H1]; [auto|] |].
    all: exfalso.
    all: destruct (addLiquidity_amounts_no_shares (balanceOf (tokenA w) (this w))
                     (balanceOf (tokenB w) (this w))
                     amountADesired amountBDesired amountAMin amountBMin) as (e & Herr);
      [tauto|].
    all: rewrite HT, Herr in Hamounts; discriminate. }
  apply addLiquidity_amounts_Ok in Hamounts as (_ & Hcases).
  destruct Hcases as [(_ & _ & -> & -> & _ & Hliq) | (HposA & _)]; [|lia].
  assert (a = amountADesired ∧ b = amountBDesired) as [-> ->].
  { apply ledger_spend_Ok in HspA as (_ & _ & HbA & _).
    apply ledger_spend_Ok in HspB as (_ & _ & HbB & _).
    apply ledger_move_Ok in HmvA as (_ & _ & _ & _ & _ & _ & HbalA).
    apply ledger_move_Ok in HmvB as (_ & _ & _ & _ & _ & _ & HbalB).
    rewrite Hthis, HtA, HtB, HbalA, HbalB in *.
    repeat (destruct (decide _); try congruence).
    rewrite (balanceOf_ext (tokenA w) tA1), (balanceOf_ext (tokenB w) tB1) in * by assumption.
    lia. }
  rewrite HA0 in HA. rewrite HB0 in HB. rewrite HT in Hsupply. simpl in HA, HB, Hsupply.
  split; [exact Hliq|]. split; [exact Hsupply|]. split; [exact HA|]. split; [exact HB|].
  intros Hrem.
  apply removeLiquidity_balances in Hrem as (HbackA & HbackB & _ & _ & _ & Hs2 & _).
  rewrite HA, HB, Hsupply in *.
  rewrite N.mul_comm, N.div_mul in HbackA by lia.
  rewrite N.mul_comm, N.div_mul in HbackB by lia.
  split; [assumption|]. split; [assumption|]. lia.
Qed.

Lemma first_depositor_recovers_deposit_witness :
  totalSupply funded_pool = N.sqrt (100 * 10 ^ 18 * (200 * 10 ^ 18)) - MINIMUM_LIQUIDITY.
Proof.
  pose proof (first_depositor_recovers_deposit 1 1 alice (100 * 10 ^ 18) (200 * 10 ^ 18) 0 0
                alice 0 0 alice fresh_pool funded_pool funded_pool
                141421356237309503880 0 0
                eq_refl ltac:(vm_compute; discriminate) ltac:(vm_compute; reflexivity))
    as (Hliq & Hsupply & _).
  rewrite Hsupply. exact Hliq.
Defined.

Lemma first_deposit_empty_pool_witness :
  141421356237309503880 = N.sqrt (100 * 10 ^ 18 * (200 * 10 ^ 18)) - MINIMUM_LIQUIDITY.
Proof.
  exact (proj1 (proj2 (first_deposit_empty_pool 1 alice (100 * 10 ^ 18) (200 * 10 ^ 18) 0 0
                         fresh_pool eq_refl eq_refl eq_refl ltac:(vm_compute; discriminate))
                  141421356237309503880 funded_pool ltac:(vm_compute; reflexivity))).
Defined.

(** Why the share balance of the first depositor is stated under a
    premise: on [gifted_pool] the first deposit mints
    [141421356237309503880] shares to [alice], and her balance grows by
    five more. *)
Example first_deposit_with_share_gift :
  balanceOf (tokenA gifted_pool) (this gifted_pool) = 0
  ∧ balanceOf (tokenB gifted_pool) (this gifted_pool) = 0
  ∧ ∃ w', addLiquidity (reenter_at 2) alice (100 * 10 ^ 18) (200 * 10 ^ 18) 0 0 gifted_pool
          = Ok (141421356237309503880, w')
          ∧ lpBalanceOf w' alice
            = lpBalanceOf gifted_pool alice + 141421356237309503880 + 5.
Proof.
  split; [vm_compute; reflexivity|]. split; [vm_compute; reflexivity|].
  eexists. split; vm_compute; reflexivity.
Qed.

Lemma first_deposit_blocked_witness :
  ∃ e, addLiquidity (reenter_at 1) alice (10 ^ 18) (10 ^ 18) 0 0 donated_pool = Err e.
Proof.
  exact (first_deposit_blocked (reenter_at 1) alice (10 ^ 18) (10 ^ 18) 0 0 donated_pool
           eq_refl ltac:(vm_compute; intros [H _]; discriminate)).
Defined.

(** ** The factory: validation and bookkeeping *)

Section FactoryBookkeeping.

Variable deployed_at : nat → N.
Hypothesis deployed_nonzero : ∀ n, deployed_at n ≠ 0.

(** X11. [createPool] succeeds exactly for two distinct non-zero tokens
  without a pool. Identical tokens are rejected first (also when both are
  zero), then a zero address, then an existing pool; on success the new
  pool is found under both orders of the pair, the count grows by
  one, and no other pair is affected. *)
Theorem createPool_outcomes (tokenA tokenB : N) (r : Registry) :
(tokenA = tokenB →
 transact (createPool deployed_at tokenA tokenB) r = (Err (Revert "Identical tokens"), r))
∧ (tokenA ≠ tokenB → tokenA = 0 ∨ tokenB = 0 →
   transact (createPool deployed_at tokenA tokenB) r = (Err (Revert "Zero address"), r))
∧ (tokenA ≠ tokenB → tokenA ≠ 0 → tokenB ≠ 0 → getPool tokenA tokenB r ≠ 0 →
   transact (createPool deployed_at tokenA tokenB) r = (Err PoolAlreadyExists, r))
∧ (tokenA ≠ tokenB → tokenA ≠ 0 → tokenB ≠ 0 → getPool tokenA tokenB r = 0 →
   ∃ r', createPool deployed_at tokenA tokenB r
         = Ok (deployed_at (length (allPools r)), r')
         ∧ getPool tokenA tokenB r' = deployed_at (length (allPools r))
         ∧ getPool tokenB tokenA r' = deployed_at (length (allPools r))
         ∧ allPoolsLength r' = allPoolsLength r + 1
         ∧ allPools_at (allPoolsLength r) r' = Ok (deployed_at (length (allPools r)))
         ∧ ∀ x y, sort_tokens x y ≠ sort_tokens tokenA tokenB →
                  getPool x y r' = getPool x y r).
Proof.
split; [|split; [|split]].
- intros <-. unfold transact, createPool. rewrite N.eqb_refl. reflexivity.
- intros Hne Hzero. unfold transact, createPool.
  rewrite (proj2 (N.eqb_neq _ _) Hne). simpl.
  destruct Hzero as [-> | ->]; simpl; [reflexivity|].
  destruct (tokenA =? 0); reflexivity.
- intros Hne Ha Hb Hset. unfold transact.
  rewrite createPool_exists; try assumption; [reflexivity|].
  rewrite <- getPool_sorted. exact Hset.
- intros Hne Ha Hb Hfree.
  destruct (createPool_fresh deployed_at tokenA tokenB r) as (r' & Hcreate);
    try assumption.
  { rewrite <- getPool_sorted. exact Hfree. }
  exists r'. split; [exact Hcreate|].
  pose proof (pools_at_created deployed_at tokenA tokenB r
                (deployed_at (length (allPools r))) r') as Hat.
  specialize (fun x y => Hat x y Hcreate).
  apply createPool_Ok in Hcreate as (_ & _ & _ & _ & _ & _ & Hall & _).
  assert (getPool tokenA tokenB r' = deployed_at (length (allPools r))) as Hget.
  { rewrite getPool_sorted, Hat. destruct (decide _); [reflexivity|].
    destruct (decide _) as [_|Hbad]; [reflexivity|]. exfalso. apply Hbad. reflexivity. }
  split; [exact Hget|]. split; [rewrite getPool_comm; exact Hget|].
  split. { unfold allPoolsLength. rewrite Hall, length_app. simpl. lia. }
  split. { unfold allPools_at, allPoolsLength. rewrite Nat2N.id, Hall.
           rewrite lookup_app_r by lia. rewrite Nat.sub_diag. reflexivity. }
  intros x y Hother. rewrite !getPool_sorted, Hat.
  destruct (sort_tokens x y) as [x0 x1] eqn:Hx.
  destruct (sort_tokens tokenA tokenB) as [t0 t1] eqn:Ht. simpl in *.
  destruct (decide ((x0, x1) = (t1, t0))) as [Heq|_].
  + exfalso. injection Heq as -> ->.
    pose proof (sort_tokens_lt tokenA tokenB Hne) as H1. rewrite Ht in H1. simpl in H1.
    assert (x ≠ y) as Hxy.
    { intros ->. unfold sort_tokens in Hx. rewrite N.ltb_irrefl in Hx.
      injection Hx as -> ->. lia. }
    pose proof (sort_tokens_lt x y Hxy) as H2. rewrite Hx in H2. simpl in H2. lia.
  + destruct (decide ((x0, x1) = (t0, t1))) as [Heq|_]; [congruence | reflexivity].
Qed.

Lemma registry_log_ok_empty : registry_log_ok deployed_at empty_registry.
Proof. split; [reflexivity|]. intros i ev H. destruct i; discriminate. Qed.

Lemma registry_log_ok_create (a b : N) (r : Registry) (pool : N) (r' : Registry) :
registry_log_ok deployed_at r → createPool deployed_at a b r = Ok (pool, r') →
registry_log_ok deployed_at r'.
Proof.
intros [Hpools Hentries] Hcreate.
apply createPool_Ok in Hcreate as (Hab & Ha & Hb & _ & Hpool & _ & Hall & Hevents).
assert (length (factory_events r) = length (allPools r)) as Hlen
  by (rewrite Hpools, length_fmap; reflexivity).
split.
- rewrite Hall, Hevents, fmap_app, Hpools. reflexivity.
- intros i ev Hev. rewrite Hevents in Hev.
  destruct (decide (i < length (factory_events r))%nat) as [Hlt|Hge].
  + rewrite lookup_app_l in Hev by assumption. apply Hentries. exact Hev.
  + rewrite lookup_app_r in Hev by lia.
    destruct (i - length (factory_events r))%nat as [|k] eqn:Hk; [|destruct k; discriminate].
    injection Hev as <-. simpl.
    assert (i = length (allPools r)) as -> by lia.
    split; [rewrite length_app; simpl; f_equal; lia|].
    split; [exact Hpool|].
    unfold sort_tokens. destruct (a <? b); simpl; lia.
Qed.

Lemma reachable_log_ok (r : Registry) :
reachable deployed_at r → registry_log_ok deployed_at r.
Proof.
induction 1 as [|r a b pool r' _ IH Hcreate].
- apply registry_log_ok_empty.
- eapply registry_log_ok_create; eassumption.
Qed.

(** X12. In every reachable registry [allPools] lists the created pools in
  creation order: the [i]-th [PoolCreated] event carries the count
  [i + 1], two non-zero tokens in increasing order and the [i]-th
  deployed pool, which is what [allPools(i)] and [getPool] in both orders
  return; from [allPoolsLength] on, [allPools(i)] reverts with empty
  return data. *)
Theorem registry_bookkeeping (r : Registry) :
reachable deployed_at r →
allPoolsLength r = N.of_nat (length (factory_events r))
∧ (∀ i, allPoolsLength r ≤ i → allPools_at i r = Err RevertNoData)
∧ (∀ i, i < allPoolsLength r → allPools_at i r = Ok (deployed_at (N.to_nat i)))
∧ (∀ i token0 token1 pool count,
     factory_events r !! i = Some (PoolCreated token0 token1 pool count) →
     count = N.of_nat (S i) ∧ pool = deployed_at i ∧ pool ≠ 0
     ∧ 0 < token0 ∧ token0 < token1
     ∧ allPools_at (N.of_nat i) r = Ok pool
     ∧ getPool token0 token1 r = pool ∧ getPool token1 token0 r = pool).
Proof.
intros Hr.
pose proof (reachable_log_ok r Hr) as [Hpools Hentries].
pose proof (reachable_ok deployed_at deployed_nonzero r Hr) as Hok.
assert (length (allPools r) = length (factory_events r)) as Hlen
  by (rewrite Hpools, length_fmap; reflexivity).
assert (∀ i ev, factory_events r !! i = Some ev →
                allPools_at (N.of_nat i) r = Ok (created_pool ev)) as Hat.
{ intros i ev Hev. unfold allPools_at. rewrite Nat2N.id, Hpools, list_lookup_fmap, Hev.
  reflexivity. }
split; [unfold allPoolsLength; rewrite Hlen; reflexivity|].
split.
{ intros i Hi. unfold allPools_at, allPoolsLength in *.
  rewrite (lookup_ge_None_2 (allPools r) (N.to_nat i)) by lia. reflexivity. }
split.
{ intros i Hi. unfold allPoolsLength in Hi.
  destruct (lookup_lt_is_Some_2 (factory_events r) (N.to_nat i)) as [ev Hev]; [lia|].
  pose proof (Hat _ _ Hev) as Hget. rewrite N2Nat.id in Hget. rewrite Hget.
  destruct (Hentries _ _ Hev) as (_ & -> & _). reflexivity. }
intros i token0 token1 pool count Hev.
destruct (Hentries _ _ Hev) as (Hcount & Hpool & Hpos). simpl in *.
assert (PoolCreated token0 token1 pool count ∈ factory_events r) as Hin
  by (eapply list_elem_of_lookup_2; exact Hev).
destruct (ok_logged r Hok _ Hin) as (Hlt & Hnz & Hstored). simpl in *.
split; [assumption|]. split; [assumption|]. split; [assumption|].
split; [assumption|]. split; [assumption|].
split; [exact (Hat _ _ Hev)|].
assert (getPool token0 token1 r = pool) as Hget.
{ rewrite getPool_sorted. unfold sort_tokens.
  rewrite (proj2 (N.ltb_lt _ _) Hlt). exact Hstored. }
split; [exact Hget | rewrite getPool_comm; exact Hget].
Qed.

End FactoryBookkeeping.

Lemma createPool_outcomes_witness :
  transact (createPool example_deployed_at 0 0) empty_registry
  = (Err (Revert "Identical tokens"), empty_registry).
Proof.
  exact (proj1 (createPool_outcomes example_deployed_at 0 0 empty_registry) eq_refl).
Defined.

Lemma registry_bookkeeping_witness :
  allPoolsLength (snd (transact (createPool example_deployed_at 7 3) empty_registry)) = 1.
Proof.
  exact (proj1 (registry_bookkeeping example_deployed_at
                  ltac:(unfold example_deployed_at; lia)
                  (snd (transact (createPool example_deployed_at 7 3) empty_registry))
                  (reachable_create example_deployed_at empty_registry 7 3 1000 _
                     (reachable_empty example_deployed_at) eq_refl))).
Defined.
